(** * Brotli4j: the JNI encoder bridge (natives/src/main/cpp/encoder_jni.cc)

    A shallow embedding of the [EncoderJNI] native entry points
    [nativeCreate], [nativePush], [nativePull], [nativeDestroy],
    [nativeAttachDictionary] and [nativePrepareDictionary] over an explicit
    process state (the C++ heap, the JNI reference table and the byte
    memory), and the properties of the handle protocol proved about it.
    [nativeDestroyDictionary] only releases memory that belongs to the
    engine, which the process state does not represent.

    The brotli encoder itself ([<brotli/encode.h>]) is an external library:
    it is the interface [BrotliEngine] below, and every theorem holds for
    every implementation of that interface. *)

From Stdlib Require Import ZArith Lia.
From stdpp Require Import base option list gmap fin_maps.

Open Scope Z_scope.

(** ** Machine integers

    [size_t] is 64 bits wide, [jlong] is a signed 64-bit integer, [jint] and
    [int] are signed 32-bit integers.  Values are integers of [Z]; every
    conversion the source performs is written out. *)

Definition to_size_t (z : Z) : Z := z mod 2 ^ 64.
Definition to_jlong (z : Z) : Z := (z + 2 ^ 63) mod 2 ^ 64 - 2 ^ 63.
Definition to_int (z : Z) : Z := (z + 2 ^ 31) mod 2 ^ 32 - 2 ^ 31.

Definition is_jint (z : Z) : Prop := - 2 ^ 31 <= z < 2 ^ 31.

(** ** The encoder engine (brotli/encode.h)

    Pointers are integers, [0] is [nullptr].  A call that reads the caller's
    bytes receives the byte memory it reads from. *)

Inductive BrotliEncoderOperation :=
  | BROTLI_OPERATION_PROCESS
  | BROTLI_OPERATION_FLUSH
  | BROTLI_OPERATION_FINISH.

Inductive BrotliEncoderParameter :=
  | BROTLI_PARAM_QUALITY
  | BROTLI_PARAM_LGWIN
  | BROTLI_PARAM_MODE.

Class BrotliEngine := {
  BrotliEncoderState : Type;
  (* the state behind the pointer BrotliEncoderCreateInstance returns *)
  BrotliEncoderInitialState : BrotliEncoderState;
  (* the BROTLI_BOOL it returns is dropped by every caller in this file *)
  BrotliEncoderSetParameter :
    BrotliEncoderState -> BrotliEncoderParameter -> Z -> BrotliEncoderState;
  (* memory, state, op, *available_in, *next_in; next_out is nullptr.
     Returns the BROTLI_BOOL, the updated *available_in, the new state. *)
  BrotliEncoderCompressStream :
    (Z -> Z) -> BrotliEncoderState -> BrotliEncoderOperation -> Z -> Z ->
    bool * Z * BrotliEncoderState;
  BrotliEncoderHasMoreOutput : BrotliEncoderState -> bool;
  BrotliEncoderIsFinished : BrotliEncoderState -> bool;
  (* returns the data pointer, *size and the new state *)
  BrotliEncoderTakeOutput : BrotliEncoderState -> Z * Z * BrotliEncoderState;
  BrotliEncoderAttachPreparedDictionary :
    BrotliEncoderState -> Z -> bool * BrotliEncoderState;
  (* memory, type, size, data, quality; returns the prepared dictionary *)
  BrotliEncoderPrepareDictionary : (Z -> Z) -> Z -> Z -> Z -> Z -> Z;
  BROTLI_MAX_QUALITY : Z
}.

(** The documented contract of the streaming call: [*available_in] only
    decreases (the engine consumes a prefix of what it is offered). *)
Definition consumes_prefix (E : BrotliEngine) : Prop :=
  forall mem st op avail next,
    0 <= avail ->
    0 <= (BrotliEncoderCompressStream mem st op avail next).1.2 <= avail.

(** An engine that accepts every prepared dictionary. *)
Definition accepts_dictionaries (E : BrotliEngine) : Prop :=
  forall st address, (BrotliEncoderAttachPreparedDictionary st address).1 = true.

(** ** Data model *)

(** [struct EncoderHandle]. *)
Record EncoderHandle := {
  state : Z;                  (* BrotliEncoderState*  *)
  dictionary_refs : list Z;   (* jobject[15]          *)
  dictionary_count : Z;       (* size_t               *)
  input_start : Z;            (* uint8_t*             *)
  input_offset : Z;           (* size_t               *)
  input_last : Z              (* size_t               *)
}.

Definition set_state (p : Z) (h : EncoderHandle) : EncoderHandle :=
  {| state := p; dictionary_refs := dictionary_refs h;
     dictionary_count := dictionary_count h; input_start := input_start h;
     input_offset := input_offset h; input_last := input_last h |}.

Definition set_dictionary_refs (l : list Z) (h : EncoderHandle) : EncoderHandle :=
  {| state := state h; dictionary_refs := l;
     dictionary_count := dictionary_count h; input_start := input_start h;
     input_offset := input_offset h; input_last := input_last h |}.

Definition set_dictionary_count (n : Z) (h : EncoderHandle) : EncoderHandle :=
  {| state := state h; dictionary_refs := dictionary_refs h;
     dictionary_count := n; input_start := input_start h;
     input_offset := input_offset h; input_last := input_last h |}.

Definition set_input_start (p : Z) (h : EncoderHandle) : EncoderHandle :=
  {| state := state h; dictionary_refs := dictionary_refs h;
     dictionary_count := dictionary_count h; input_start := p;
     input_offset := input_offset h; input_last := input_last h |}.

Definition set_input_offset (n : Z) (h : EncoderHandle) : EncoderHandle :=
  {| state := state h; dictionary_refs := dictionary_refs h;
     dictionary_count := dictionary_count h; input_start := input_start h;
     input_offset := n; input_last := input_last h |}.

Definition set_input_last (n : Z) (h : EncoderHandle) : EncoderHandle :=
  {| state := state h; dictionary_refs := dictionary_refs h;
     dictionary_count := dictionary_count h; input_start := input_start h;
     input_offset := input_offset h; input_last := n |}.

(** What [new (std::nothrow) EncoderHandle()] yields: value-initialised. *)
Definition zero_handle : EncoderHandle :=
  {| state := 0; dictionary_refs := replicate 15 0; dictionary_count := 0;
     input_start := 0; input_offset := 0; input_last := 0 |}.

(** The [jlong context[5]] tuple exchanged with Java through [ctx]. *)
Record JContext := { ctx0 : Z; ctx1 : Z; ctx2 : Z; ctx3 : Z; ctx4 : Z }.

Definition set_ctx0 (v : Z) (c : JContext) : JContext :=
  {| ctx0 := v; ctx1 := ctx1 c; ctx2 := ctx2 c; ctx3 := ctx3 c; ctx4 := ctx4 c |}.
Definition set_ctx1 (v : Z) (c : JContext) : JContext :=
  {| ctx0 := ctx0 c; ctx1 := v; ctx2 := ctx2 c; ctx3 := ctx3 c; ctx4 := ctx4 c |}.

(** What a JNI reference denotes. *)
Inductive jreferent :=
  | DirectBuffer (address capacity : Z)
  | OtherObject.

(** A [jobject] handed back to Java: [nullptr] or the result of
    [NewDirectByteBuffer]. *)
Inductive jbuffer :=
  | jnull
  | NewDirectByteBuffer (address capacity : Z).

Definition Z_of_bool (b : bool) : Z := if b then 1 else 0.

(** What the allocators answer during one [nativeCreate]; [0] is failure. *)
Record Allocation := {
  new_EncoderHandle : Z;            (* new (std::nothrow) EncoderHandle() *)
  new_input : Z;                    (* new (std::nothrow) uint8_t[n]      *)
  BrotliEncoderCreateInstance : Z   (* the engine's constructor           *)
}.

Section Bridge.
Context {E : BrotliEngine}.

(** The process state the native code works on. *)
Record World := {
  handles : gmap Z EncoderHandle;        (* live EncoderHandle structs   *)
  arrays : gmap Z Z;                     (* live uint8_t[] : base -> size *)
  encoders : gmap Z BrotliEncoderState;  (* live engine instances         *)
  refs : gmap Z jreferent;               (* live JNI references           *)
  memory : Z -> Z                        (* bytes, by address             *)
}.

Definition set_handles (f : gmap Z EncoderHandle -> gmap Z EncoderHandle)
    (w : World) : World :=
  {| handles := f (handles w); arrays := arrays w; encoders := encoders w;
     refs := refs w; memory := memory w |}.
Definition set_arrays (f : gmap Z Z -> gmap Z Z) (w : World) : World :=
  {| handles := handles w; arrays := f (arrays w); encoders := encoders w;
     refs := refs w; memory := memory w |}.
Definition set_encoders
    (f : gmap Z BrotliEncoderState -> gmap Z BrotliEncoderState)
    (w : World) : World :=
  {| handles := handles w; arrays := arrays w; encoders := f (encoders w);
     refs := refs w; memory := memory w |}.
Definition set_refs (f : gmap Z jreferent -> gmap Z jreferent)
    (w : World) : World :=
  {| handles := handles w; arrays := arrays w; encoders := encoders w;
     refs := f (refs w); memory := memory w |}.

(** [handle->field = v] and [handle->field] on a live handle. *)
Definition store (handle : Z) (f : EncoderHandle -> EncoderHandle)
    (w : World) : World :=
  set_handles (alter f handle) w.
Definition load (w : World) (handle : Z) : EncoderHandle :=
  default zero_handle (handles w !! handle).

(** JNI *)
Definition GetDirectBufferAddress (w : World) (obj : Z) : Z :=
  match refs w !! obj with
  | Some (DirectBuffer address _) => address
  | _ => 0
  end.
Definition GetDirectBufferCapacity (w : World) (obj : Z) : Z :=
  match refs w !! obj with
  | Some (DirectBuffer _ capacity) => capacity
  | _ => -1
  end.
(** [ref] is what the JVM answers: [0] when out of memory. *)
Definition NewGlobalRef (ref obj : Z) (w : World) : World :=
  if decide (ref = 0) then w
  else set_refs (<[ref := default OtherObject (refs w !! obj)]>) w.
Definition DeleteGlobalRef (ref : Z) (w : World) : World :=
  set_refs (delete ref) w.

(** *** nativeCreate (lines 63-128) *)

Definition apply_parameter (handle : Z) (p : BrotliEncoderParameter)
    (v : Z) (w : World) : World :=
  if decide (0 <= v)
  then set_encoders
         (alter (fun st => BrotliEncoderSetParameter st p v)
                (state (load w handle))) w
  else w.

Definition nativeCreate (al : Allocation) (w : World) (ctx : JContext)
    : World * JContext * jbuffer :=
  let input_size := to_size_t (ctx1 ctx) in
  let context := set_ctx0 0 ctx in
  let handle := new_EncoderHandle al in
  let w := if decide (handle = 0) then w
           else set_handles (<[handle := zero_handle]>) w in
  let ok := bool_decide (handle <> 0) in
  let '(w, ok) :=
    if ok then
      let w := store handle (set_dictionary_refs (replicate 15 0)) w in
      let w := store handle (set_dictionary_count 0) w in
      let w := store handle (set_input_offset 0) w in
      let w := store handle (set_input_last 0) w in
      let w := store handle (set_input_start 0) w in
      if decide (input_size = 0) then (w, false)
      else
        let p := new_input al in
        let w := if decide (p = 0) then w
                 else set_arrays (<[p := input_size]>) w in
        (store handle (set_input_start p) w, bool_decide (p <> 0))
    else (w, ok) in
  let '(w, ok) :=
    if ok then
      let s := BrotliEncoderCreateInstance al in
      let w := if decide (s = 0) then w
               else set_encoders (<[s := BrotliEncoderInitialState]>) w in
      (store handle (set_state s) w, bool_decide (s <> 0))
    else (w, ok) in
  let w :=
    if ok then
      let w := apply_parameter handle BROTLI_PARAM_QUALITY (to_int (ctx2 context)) w in
      let w := apply_parameter handle BROTLI_PARAM_LGWIN (to_int (ctx3 context)) w in
      apply_parameter handle BROTLI_PARAM_MODE (to_int (ctx4 context)) w
    else w in
  let '(w, context) :=
    if ok then (w, set_ctx0 handle context)
    else if bool_decide (handle <> 0) then
      let w := if bool_decide (input_start (load w handle) <> 0)
               then set_arrays (delete (input_start (load w handle))) w
               else w in
      (set_handles (delete handle) w, context)
    else (w, context) in
  (w, context,
   if ok then NewDirectByteBuffer (input_start (load w handle)) (to_jlong input_size)
   else jnull).

(** *** nativePush (lines 138-179)

    [None] is undefined behaviour: the cookie does not address a live handle
    or the handle's engine pointer does not address a live engine. *)

Definition operation_of_int (operation : Z) : option BrotliEncoderOperation :=
  if decide (operation = 0) then Some BROTLI_OPERATION_PROCESS
  else if decide (operation = 1) then Some BROTLI_OPERATION_FLUSH
  else if decide (operation = 2) then Some BROTLI_OPERATION_FINISH
  else None.

(** Lines 156-163: [None] is the early [return]. *)
Definition accept_input (input_length : Z) (h : EncoderHandle)
    : option EncoderHandle :=
  if decide (input_length <> 0) then
    if decide (input_offset h < input_last h) then None
    else Some (set_input_last (to_size_t input_length) (set_input_offset 0 h))
  else Some h.

Definition nativePush (w : World) (ctx : JContext) (input_length : Z)
    : option (World * JContext) :=
  let handle := ctx0 ctx in
  let operation := to_int (ctx1 ctx) in
  let context := set_ctx1 0 ctx in
  match operation_of_int operation with
  | None => Some (w, context)
  | Some op =>
    h ← handles w !! handle;
    match accept_input input_length h with
    | None => Some (w, context)
    | Some h =>
      st ← encoders w !! state h;
      let in_ := input_start h + input_offset h in
      let in_size := to_size_t (input_last h - input_offset h) in
      let '(status, in_size', st') :=
        BrotliEncoderCompressStream (memory w) st op in_size in_ in
      let h := set_input_offset (to_size_t (input_last h - in_size')) h in
      let w := set_encoders (<[state h := st']>) (set_handles (<[handle := h]>) w) in
      let context :=
        if status then
          {| ctx0 := ctx0 context; ctx1 := 1;
             ctx2 := Z_of_bool (BrotliEncoderHasMoreOutput st');
             ctx3 := Z_of_bool (bool_decide (input_offset h <> input_last h));
             ctx4 := Z_of_bool (BrotliEncoderIsFinished st') |}
        else context in
      Some (w, context)
    end
  end.

(** *** nativePull (lines 189-203) *)

Definition nativePull (w : World) (ctx : JContext)
    : option (World * JContext * jbuffer) :=
  let handle := ctx0 ctx in
  h ← handles w !! handle;
  st ← encoders w !! state h;
  let '(data, data_length, st') := BrotliEncoderTakeOutput st in
  let w := set_encoders (<[state h := st']>) w in
  let context :=
    {| ctx0 := ctx0 ctx; ctx1 := 1;
       ctx2 := Z_of_bool (BrotliEncoderHasMoreOutput st');
       ctx3 := Z_of_bool (bool_decide (input_offset h <> input_last h));
       ctx4 := Z_of_bool (BrotliEncoderIsFinished st') |} in
  Some (w, context, NewDirectByteBuffer data (to_jlong data_length)).

(** *** nativeDestroy (lines 210-222) *)

Definition nativeDestroy (w : World) (ctx : JContext) : option World :=
  let handle := ctx0 ctx in
  h ← handles w !! handle;
  (* reading dictionary_refs[i] for i >= 15 would leave the array *)
  if decide (15 < dictionary_count h) then None
  else
    let w := set_encoders (delete (state h)) w in
    let w := foldl (fun w ref => DeleteGlobalRef ref w) w
               (take (Z.to_nat (dictionary_count h)) (dictionary_refs h)) in
    let w := set_arrays (delete (input_start h)) w in
    Some (set_handles (delete handle) w).

(** *** nativeAttachDictionary (lines 224-256)

    [new_ref] is what [NewGlobalRef] answers on this call. *)

Definition nativeAttachDictionary (new_ref : Z) (w : World) (ctx : JContext)
    (dictionary : Z) : option (World * bool) :=
  let handle := ctx0 ctx in
  let ok := true in
  let ok := if ok && bool_decide (dictionary = 0) then false else ok in
  let check_count : option bool :=
    if ok then
      h ← handles w !! handle;
      Some (if decide (15 <= dictionary_count h) then false else ok)
    else Some ok in
  match check_count with
  | None => None
  | Some ok =>
    let '(w, ref, ok) :=
      if ok then (NewGlobalRef new_ref dictionary w, new_ref,
                  bool_decide (new_ref <> 0))
      else (w, 0, ok) in
    let retain : option (World * Z * bool) :=
      if ok then
        h ← handles w !! handle;
        let w := store handle
                   (set_dictionary_refs
                      (<[Z.to_nat (dictionary_count h) := ref]> (dictionary_refs h))) w in
        let w := store handle (set_dictionary_count (dictionary_count h + 1)) w in
        let address := GetDirectBufferAddress w ref in
        Some (w, address, bool_decide (address <> 0))
      else Some (w, 0, ok) in
    match retain with
    | None => None
    | Some (w, address, ok) =>
      if ok then
        h ← handles w !! handle;
        st ← encoders w !! state h;
        let '(r, st') := BrotliEncoderAttachPreparedDictionary st address in
        Some (set_encoders (<[state h := st']>) w, r)
      else Some (w, ok)
    end
  end.

(** *** nativePrepareDictionary (lines 273-299) *)

Definition nativePrepareDictionary (w : World) (dictionary type : Z) : jbuffer :=
  if decide (dictionary = 0) then jnull
  else
    let address := GetDirectBufferAddress w dictionary in
    if decide (address = 0) then jnull
    else
      let capacity := GetDirectBufferCapacity w dictionary in
      if decide (capacity <= 0 \/ capacity >= Z.shiftl 1 30) then jnull
      else
        let dictionary_type := to_int type in
        let size := to_size_t capacity in
        let prepared_dictionary :=
          BrotliEncoderPrepareDictionary (memory w) dictionary_type size address
            BROTLI_MAX_QUALITY in
        if decide (prepared_dictionary = 0) then jnull
        else NewDirectByteBuffer prepared_dictionary 4.

End Bridge.

Arguments World : clear implicits.

(** ** Vocabulary of the statements *)

Section Vocabulary.
Context {E : BrotliEngine}.
Implicit Types (w : World E) (h : EncoderHandle) (ctx : JContext).

(** The allocators answer with addresses that are not in use. *)
Definition fresh w (al : Allocation) : Prop :=
  (new_EncoderHandle al <> 0 -> handles w !! new_EncoderHandle al = None) /\
  (new_input al <> 0 -> arrays w !! new_input al = None) /\
  (BrotliEncoderCreateInstance al <> 0 ->
   encoders w !! BrotliEncoderCreateInstance al = None).

Definition configure (p : BrotliEncoderParameter) (v : Z)
    (st : BrotliEncoderState) : BrotliEncoderState :=
  if decide (0 <= v) then BrotliEncoderSetParameter st p v else st.

(** The engine state of a new encoder: the three parameters applied in the
    order quality, lgwin, mode, each only when it is not negative. *)
Definition configured ctx : BrotliEncoderState :=
  configure BROTLI_PARAM_MODE (to_int (ctx4 ctx))
    (configure BROTLI_PARAM_LGWIN (to_int (ctx3 ctx))
       (configure BROTLI_PARAM_QUALITY (to_int (ctx2 ctx))
          BrotliEncoderInitialState)).

Definition created_handle (al : Allocation) : EncoderHandle :=
  {| state := BrotliEncoderCreateInstance al;
     dictionary_refs := replicate 15 0; dictionary_count := 0;
     input_start := new_input al; input_offset := 0; input_last := 0 |}.

(** The world after a creation in which every allocation succeeded. *)
Definition created_world (al : Allocation) w ctx : World E :=
  {| handles := <[new_EncoderHandle al := created_handle al]> (handles w);
     arrays := <[new_input al := to_size_t (ctx1 ctx)]> (arrays w);
     encoders := <[BrotliEncoderCreateInstance al := configured ctx]> (encoders w);
     refs := refs w; memory := memory w |}.

(** The window a push works on once line 163 is passed: reset to
    [0, input_length) when new input is supplied, the old one otherwise. *)
Definition pending (input_length : Z) h : EncoderHandle :=
  if decide (input_length <> 0)
  then set_input_last (to_size_t input_length) (set_input_offset 0 h)
  else h.

(** The status tuple both [nativePush] and [nativePull] report. *)
Definition status_tuple (cookie : Z) (st : BrotliEncoderState) h : JContext :=
  {| ctx0 := cookie; ctx1 := 1;
     ctx2 := Z_of_bool (BrotliEncoderHasMoreOutput st);
     ctx3 := Z_of_bool (bool_decide (input_offset h <> input_last h));
     ctx4 := Z_of_bool (BrotliEncoderIsFinished st) |}.

(** The handle after a successful registration of [ref] (lines 245-246). *)
Definition retained (ref : Z) h : EncoderHandle :=
  set_dictionary_count (dictionary_count h + 1)
    (set_dictionary_refs
       (<[Z.to_nat (dictionary_count h) := ref]> (dictionary_refs h)) h).

(** The world a push leaves when the engine call was made on the window of
    [h1], left [rest] bytes unconsumed and moved to the state [st']. *)
Definition pushed_handle (rest : Z) h1 : EncoderHandle :=
  set_input_offset (to_size_t (input_last h1 - rest)) h1.

Definition pushed_world w (cookie rest : Z) (st' : BrotliEncoderState) h1
    : World E :=
  {| handles := <[cookie := pushed_handle rest h1]> (handles w);
     arrays := arrays w;
     encoders := <[state h1 := st']> (encoders w);
     refs := refs w; memory := memory w |}.

(** The world once [new_ref] is created and registered in the handle. *)
Definition retained_world (new_ref : Z) w (cookie dictionary : Z) h : World E :=
  {| handles := <[cookie := retained new_ref h]> (handles w);
     arrays := arrays w; encoders := encoders w;
     refs := <[new_ref := default OtherObject (refs w !! dictionary)]> (refs w);
     memory := memory w |}.

(** *** Call sequences *)

Inductive Call :=
  | Create (al : Allocation) (ctx : JContext)
  | Push (ctx : JContext) (input_length : Z)
  | Pull (ctx : JContext)
  | Attach (new_ref : Z) (ctx : JContext) (dictionary : Z)
  | Destroy (ctx : JContext).

Definition exec w (c : Call) : option (World E) :=
  match c with
  | Create al ctx => Some (nativeCreate al w ctx).1.1
  | Push ctx input_length => fst <$> nativePush w ctx input_length
  | Pull ctx => (fun r => r.1.1) <$> nativePull w ctx
  | Attach new_ref ctx dictionary =>
      fst <$> nativeAttachDictionary new_ref w ctx dictionary
  | Destroy ctx => nativeDestroy w ctx
  end.

(** What the runtime guarantees of a call: allocators answer with unused
    addresses, a [jint] is a [jint]. *)
Definition well_formed w (c : Call) : Prop :=
  match c with
  | Create al _ => fresh w al
  | Push _ input_length => is_jint input_length
  | _ => True
  end.

(** Worlds reachable from one without any handle, by calls that obey the
    discipline [D]; between calls the JVM and the caller may change the
    byte memory and the reference table. *)
Inductive Reachable (D : World E -> Call -> Prop) : World E -> Prop :=
  | Reachable_start w :
      handles w = ∅ -> Reachable D w
  | Reachable_call w c w' :
      Reachable D w -> well_formed w c -> D w c -> exec w c = Some w' ->
      Reachable D w'
  | Reachable_env w w' :
      Reachable D w -> handles w' = handles w -> arrays w' = arrays w ->
      encoders w' = encoders w -> Reachable D w'.

Definition any_call : World E -> Call -> Prop := fun _ _ => True.

(** The discipline under which the window stays inside the buffer: a push
    never announces more bytes than the scratch buffer holds. *)
Definition within_capacity w (c : Call) : Prop :=
  match c with
  | Push ctx input_length =>
      forall h C, handles w !! ctx0 ctx = Some h ->
                  arrays w !! input_start h = Some C ->
                  0 <= input_length <= C
  | _ => True
  end.

Definition streaming (c : Call) : Prop :=
  match c with
  | Push _ _ | Pull _ => True
  | _ => False
  end.

(** *** Invariants *)

(** [0 <= input_offset <= input_limit <= C], [C] the size of the scratch
    buffer the handle owns. *)
Definition window_in_buffer w h : Prop :=
  exists C, arrays w !! input_start h = Some C /\
            0 <= input_offset h <= input_last h /\ input_last h <= C.

Definition window_ordered h : Prop :=
  0 <= input_offset h <= input_last h /\ input_last h < 2 ^ 64.

Definition registry_ok h : Prop :=
  length (dictionary_refs h) = 15%nat /\ 0 <= dictionary_count h <= 15.

(** Every live handle owns a live engine and a live scratch buffer, and no
    two handles share either. *)
Definition heap_ok w : Prop :=
  (forall a h, handles w !! a = Some h ->
     is_Some (encoders w !! state h) /\ is_Some (arrays w !! input_start h) /\
     registry_ok h) /\
  (forall a a' h h', handles w !! a = Some h -> handles w !! a' = Some h' ->
     state h = state h' \/ input_start h = input_start h' -> a = a').

(** A property of every live handle. *)
Definition every_handle (P : World E -> EncoderHandle -> Prop) w : Prop :=
  forall a h, handles w !! a = Some h -> P w h.

(** Attaching one after the other, with the answers of [NewGlobalRef]. *)
Fixpoint attach_each w ctx (calls : list (Z * Z)) : option (World E * list bool) :=
  match calls with
  | [] => Some (w, [])
  | (new_ref, dictionary) :: rest =>
      match nativeAttachDictionary new_ref w ctx dictionary with
      | None => None
      | Some (w, ok) =>
          match attach_each w ctx rest with
          | None => None
          | Some (w, oks) => Some (w, ok :: oks)
          end
      end
  end.

End Vocabulary.

(** ** A small engine for running the bridge

    It consumes at most four bytes of input per call, holds what it has
    consumed as output until the next [BrotliEncoderTakeOutput], and accepts
    every dictionary. *)

Record SampleState := {
  held : Z;          (* bytes of output not yet taken *)
  ending : bool;     (* BROTLI_OPERATION_FINISH was requested *)
  attached : list Z  (* prepared dictionaries, in attachment order *)
}.

Definition sample_engine : BrotliEngine := {|
  BrotliEncoderState := SampleState;
  BrotliEncoderInitialState := {| held := 0; ending := false; attached := [] |};
  BrotliEncoderSetParameter := fun st _ _ => st;
  BrotliEncoderCompressStream := fun _ st op avail _ =>
    let n := Z.min avail 4 in
    (true, avail - n,
     {| held := held st + n;
        ending := match op with
                  | BROTLI_OPERATION_FINISH => bool_decide (avail - n = 0)
                  | _ => ending st
                  end;
        attached := attached st |});
  BrotliEncoderHasMoreOutput := fun st => bool_decide (0 < held st);
  BrotliEncoderIsFinished := fun st => ending st && bool_decide (held st = 0);
  BrotliEncoderTakeOutput := fun st =>
    (4096, held st,
     {| held := 0; ending := ending st; attached := attached st |});
  BrotliEncoderAttachPreparedDictionary := fun st address =>
    (true, {| held := held st; ending := ending st;
              attached := attached st ++ [address] |});
  BrotliEncoderPrepareDictionary := fun _ _ size data quality =>
    data + size + quality;
  BROTLI_MAX_QUALITY := 11
|}.

(** One direct buffer (reference 7, at address 500, 64 bytes) and one object
    that is no buffer (reference 8) are known to the JVM; nothing is
    allocated. *)
Definition sample_world : World sample_engine :=
  {| handles := ∅; arrays := ∅; encoders := ∅;
     refs := {[ 7 := DirectBuffer 500 64; 8 := OtherObject ]};
     memory := fun _ => 0 |}.

Definition sample_allocation : Allocation :=
  {| new_EncoderHandle := 1000; new_input := 2000;
     BrotliEncoderCreateInstance := 3000 |}.

Definition sample_ctx (cookie v1 : Z) : JContext :=
  {| ctx0 := cookie; ctx1 := v1; ctx2 := 5; ctx3 := 22; ctx4 := 0 |}.

(** The sample world after [nativeCreate] with a scratch buffer of
    [capacity] bytes. *)
Definition sample_created (capacity : Z) : World sample_engine :=
  (nativeCreate sample_allocation sample_world (sample_ctx 0 capacity)).1.1.

(** The same after one push of [input_length] bytes with operation
    PROCESS; the engine takes four of them. *)
Definition sample_pushed (capacity input_length : Z)
    : World sample_engine * JContext :=
  default (sample_world, sample_ctx 0 0)
    (nativePush (sample_created capacity) (sample_ctx 1000 0) input_length).

(** The handle at 1000 when [offset] of [last] announced bytes are consumed. *)
Definition sample_handle (offset last : Z) : EncoderHandle :=
  {| state := 3000; dictionary_refs := replicate 15 0; dictionary_count := 0;
     input_start := 2000; input_offset := offset; input_last := last |}.

(** Fifteen answers of [NewGlobalRef]. *)
Definition sample_refs : list Z :=
  [101; 102; 103; 104; 105; 106; 107; 108; 109; 110; 111; 112; 113; 114; 115].

(** The created world after the buffer behind reference 7 was attached
    fifteen times. *)
Definition sample_full : World sample_engine :=
  (default (sample_world, [])
     (attach_each (sample_created 16) (sample_ctx 1000 0)
        (map (fun r => (r, 7)) sample_refs))).1.

(** ** Sessions, and the lifetime of prepared dictionaries *)

Section Sessions.
Context {E : BrotliEngine}.
Implicit Types (w : World E) (h : EncoderHandle) (ctx : JContext).

(** Calls one after the other; [None] as soon as one is undefined. *)
Fixpoint run w (calls : list Call) : option (World E) :=
  match calls with
  | [] => Some w
  | c :: rest =>
      match exec w c with
      | None => None
      | Some w' => run w' rest
      end
  end.

(** The handle a call works on. *)
Definition cookie_of (c : Call) : option Z :=
  match c with
  | Create _ _ => None
  | Push ctx _ | Pull ctx | Attach _ ctx _ | Destroy ctx => Some (ctx0 ctx)
  end.

(** A push, pull or attach on the handle with cookie [a]. *)
Definition in_session (a : Z) (c : Call) : Prop :=
  match c with
  | Push ctx _ | Pull ctx | Attach _ ctx _ => ctx0 ctx = a
  | _ => False
  end.

(** The non-null answers of [NewGlobalRef] in a list of calls. *)
Definition new_refs (calls : list Call) : list Z :=
  flat_map (fun c => match c with
                     | Attach r _ _ => if decide (r = 0) then [] else [r]
                     | _ => []
                     end) calls.

(** The references a handle holds: [dictionary_refs[0 .. dictionary_count)]. *)
Definition held_refs h : list Z :=
  take (Z.to_nat (dictionary_count h)) (dictionary_refs h).

(** The answers of [NewGlobalRef] that [attach_each] registers, in call
    order: those given for a non-null dictionary, and non-null themselves. *)
Definition registrations (calls : list (Z * Z)) : list Z :=
  (filter (fun c : Z * Z => c.1 <> 0 /\ c.2 <> 0) calls).*1.

(** The state of a session on the handle at [a], which owns the scratch
    array at [p] and the engine at [s], relative to the world [w0] the
    session started from: besides the handle, its array and its engine, the
    only difference are the references the handle holds. *)
Definition session_state (a p s : Z) (w0 w : World E) : Prop :=
  exists h C st,
    handles w = <[a := h]> (handles w0) /\
    arrays w = <[p := C]> (arrays w0) /\
    encoders w = <[s := st]> (encoders w0) /\
    memory w = memory w0 /\
    state h = s /\ input_start h = p /\ registry_ok h /\
    (forall k, k ∈ held_refs h -> refs w0 !! k = None) /\
    (forall k, k ∉ held_refs h -> refs w !! k = refs w0 !! k).

(** *** nativeDestroyDictionary (lines 258-271)

    Prepared dictionaries are memory of the engine.  [live] is the set of
    those [BrotliEncoderPrepareDictionary] has handed out and
    [BrotliEncoderDestroyPreparedDictionary] was not yet given; giving it
    another pointer frees what is not allocated: [None]. *)

Definition BrotliEncoderDestroyPreparedDictionary (live : gset Z) (p : Z)
    : option (gset Z) :=
  if decide (p ∈ live) then Some (live ∖ {[p]}) else None.

Definition nativeDestroyDictionary w (live : gset Z) (dictionary : Z)
    : option (gset Z) :=
  if decide (dictionary = 0) then Some live
  else
    let address := GetDirectBufferAddress w dictionary in
    if decide (address = 0) then Some live
    else BrotliEncoderDestroyPreparedDictionary live address.

(** The live set once [nativePrepareDictionary] has returned [b]. *)
Definition prepared (b : jbuffer) (live : gset Z) : gset Z :=
  match b with
  | jnull => live
  | NewDirectByteBuffer p _ => {[p]} ∪ live
  end.

End Sessions.

(** An engine that fails: its streaming call consumes up to four bytes and
    reports an error, and it refuses every dictionary. *)
Definition failing_engine : BrotliEngine := {|
  BrotliEncoderState := SampleState;
  BrotliEncoderInitialState := {| held := 0; ending := false; attached := [] |};
  BrotliEncoderSetParameter := fun st _ _ => st;
  BrotliEncoderCompressStream := fun _ st op avail _ =>
    (false, avail - Z.min avail 4, st);
  BrotliEncoderHasMoreOutput := fun st => bool_decide (0 < held st);
  BrotliEncoderIsFinished := fun st => ending st;
  BrotliEncoderTakeOutput := fun st => (4096, 0, st);
  BrotliEncoderAttachPreparedDictionary := fun st address => (false, st);
  BrotliEncoderPrepareDictionary := fun _ _ _ _ _ => 0;
  BROTLI_MAX_QUALITY := 11
|}.

Definition failing_world : World failing_engine :=
  (nativeCreate sample_allocation
     {| handles := ∅; arrays := ∅; encoders := ∅; refs := ∅;
        memory := fun _ => 0 |} (sample_ctx 0 16)).1.1.

(** A session on the sample handle: eight bytes pushed, the output pulled,
    the buffer behind reference 7 attached, an object that is no buffer
    attached, the rest of the input pushed. *)
Definition sample_session : list Call :=
  [Push (sample_ctx 1000 0) 8; Pull (sample_ctx 1000 0);
   Attach 101 (sample_ctx 1000 0) 7; Attach 102 (sample_ctx 1000 0) 8;
   Push (sample_ctx 1000 2) 0].

(** A second encoder beside the sample one. *)
Definition second_allocation : Allocation :=
  {| new_EncoderHandle := 1100; new_input := 2100;
     BrotliEncoderCreateInstance := 3100 |}.

Definition two_handles : World sample_engine :=
  (nativeCreate second_allocation (sample_created 16) (sample_ctx 0 32)).1.1.

Definition sample_after_session : World sample_engine :=
  default sample_world (run (sample_created 16) sample_session).

Definition two_handles_pushed : World sample_engine :=
  default sample_world (exec two_handles (Push (sample_ctx 1100 0) 8)).

(** Four attaches: one registered, one for which [NewGlobalRef] answers
    null, one of a null dictionary, one of an object that is no buffer. *)
Definition sample_attaches : list (Z * Z) :=
  [(101, 7); (0, 7); (102, 0); (103, 8)].

Definition sample_attached : World sample_engine * list bool :=
  default (sample_world, [])
    (attach_each (sample_created 16) (sample_ctx 1000 0) sample_attaches).

(** The created world once the JVM has bound reference 9 to the buffer that
    [nativePrepareDictionary] returned for reference 7. *)
Definition prepared_world : World sample_engine :=
  set_refs (<[9 := DirectBuffer 575 4]>) (sample_created 16).

(** An engine that records how it is called: every streaming call is
    logged with its operation, [*available_in] and [*next_in] (latest
    first).  It consumes at most four bytes per call and hands out at most
    three bytes per [BrotliEncoderTakeOutput]. *)
Record LoggedState := {
  seen : list (BrotliEncoderOperation * Z * Z);
  unread : Z;      (* bytes of output not yet taken *)
  closed : bool    (* a FINISH call consumed all its input *)
}.

Definition logging_engine : BrotliEngine := {|
  BrotliEncoderState := LoggedState;
  BrotliEncoderInitialState := {| seen := []; unread := 0; closed := false |};
  BrotliEncoderSetParameter := fun st _ _ => st;
  BrotliEncoderCompressStream := fun _ st op avail next =>
    let n := Z.min avail 4 in
    (true, avail - n,
     {| seen := (op, avail, next) :: seen st;
        unread := unread st + n;
        closed := match op with
                  | BROTLI_OPERATION_FINISH => bool_decide (avail - n = 0)
                  | _ => closed st
                  end |});
  BrotliEncoderHasMoreOutput := fun st => bool_decide (0 < unread st);
  BrotliEncoderIsFinished := fun st => closed st && bool_decide (unread st = 0);
  BrotliEncoderTakeOutput := fun st =>
    let n := Z.min (unread st) 3 in
    (7000, n, {| seen := seen st; unread := unread st - n; closed := closed st |});
  BrotliEncoderAttachPreparedDictionary := fun st address => (true, st);
  BrotliEncoderPrepareDictionary := fun _ _ _ _ _ => 0;
  BROTLI_MAX_QUALITY := 11
|}.

Definition empty_world : World logging_engine :=
  {| handles := ∅; arrays := ∅; encoders := ∅; refs := ∅;
     memory := fun _ => 0 |}.

(** One encoder with a scratch buffer of 16 bytes; slot 0 of the tuple held
    77 when [nativeCreate] was called. *)
Definition logged_created : World logging_engine :=
  (nativeCreate sample_allocation empty_world (sample_ctx 77 16)).1.1.

(** A tuple for cookie 1000 whose slots 2, 3 and 4 hold 9. *)
Definition stale_ctx (v1 : Z) : JContext :=
  {| ctx0 := 1000; ctx1 := v1; ctx2 := 9; ctx3 := 9; ctx4 := 9 |}.

Definition logged_push (w : World logging_engine) (tag input_length : Z)
    : World logging_engine * JContext :=
  default (w, stale_ctx tag) (nativePush w (stale_ctx tag) input_length).

Definition logged_pull (w : World logging_engine)
    : World logging_engine * JContext * jbuffer :=
  default (w, stale_ctx 9, jnull) (nativePull w (stale_ctx 9)).

(** Allocators of which one answers null. *)
Definition no_handle : Allocation :=
  {| new_EncoderHandle := 0; new_input := 2000;
     BrotliEncoderCreateInstance := 3000 |}.
Definition no_input : Allocation :=
  {| new_EncoderHandle := 1000; new_input := 0;
     BrotliEncoderCreateInstance := 3000 |}.
Definition no_engine : Allocation :=
  {| new_EncoderHandle := 1000; new_input := 2000;
     BrotliEncoderCreateInstance := 0 |}.

(** ** Properties *)

Lemma to_size_t_small z : 0 <= z < 2 ^ 64 -> to_size_t z = z.
Proof. intros H. unfold to_size_t. apply Z.mod_small. exact H. Qed.

Lemma to_size_t_range z : 0 <= to_size_t z < 2 ^ 64.
Proof. unfold to_size_t. apply Z.mod_pos_bound. lia. Qed.


Lemma to_int_small z : - 2 ^ 31 <= z < 2 ^ 31 -> to_int z = z.
Proof. intros H. unfold to_int. rewrite Z.mod_small; lia. Qed.

Section Properties.
Context {E : BrotliEngine}.
Implicit Types (w : World E) (h : EncoderHandle) (ctx : JContext).


Lemma world_eq w (hs : gmap Z EncoderHandle) (ars : gmap Z Z)
    (es : gmap Z BrotliEncoderState) (rs : gmap Z jreferent) :
  hs = handles w -> ars = arrays w -> es = encoders w -> rs = refs w ->
  {| handles := hs; arrays := ars; encoders := es; refs := rs;
     memory := memory w |} = w.
Proof. intros -> -> -> ->. by destruct w. Qed.

(** Reading and writing a world given by its components. *)
Lemma store_record a f hs ars (es : gmap Z BrotliEncoderState) rs mem :
  store a f {| handles := hs; arrays := ars; encoders := es; refs := rs;
               memory := mem |} =
  {| handles := alter f a hs; arrays := ars; encoders := es; refs := rs;
     memory := mem |}.
Proof. reflexivity. Qed.

Lemma load_record a hs ars (es : gmap Z BrotliEncoderState) rs mem :
  load {| handles := hs; arrays := ars; encoders := es; refs := rs;
          memory := mem |} a = default zero_handle (hs !! a).
Proof. reflexivity. Qed.

Lemma set_handles_record f hs ars (es : gmap Z BrotliEncoderState) rs mem :
  set_handles f {| handles := hs; arrays := ars; encoders := es; refs := rs;
                   memory := mem |} =
  {| handles := f hs; arrays := ars; encoders := es; refs := rs; memory := mem |}.
Proof. reflexivity. Qed.

Lemma set_arrays_record f hs ars (es : gmap Z BrotliEncoderState) rs mem :
  set_arrays f {| handles := hs; arrays := ars; encoders := es; refs := rs;
                  memory := mem |} =
  {| handles := hs; arrays := f ars; encoders := es; refs := rs; memory := mem |}.
Proof. reflexivity. Qed.

Lemma set_encoders_record f hs ars (es : gmap Z BrotliEncoderState) rs mem :
  set_encoders f {| handles := hs; arrays := ars; encoders := es; refs := rs;
                    memory := mem |} =
  {| handles := hs; arrays := ars; encoders := f es; refs := rs; memory := mem |}.
Proof. reflexivity. Qed.

Lemma apply_parameter_record a p v h s st hs ars
    (es : gmap Z BrotliEncoderState) rs mem :
  state h = s ->
  apply_parameter a p v
    {| handles := <[a := h]> hs; arrays := ars; encoders := <[s := st]> es;
       refs := rs; memory := mem |} =
  {| handles := <[a := h]> hs; arrays := ars;
     encoders := <[s := configure p v st]> es; refs := rs; memory := mem |}.
Proof.
  intros <-. unfold apply_parameter, configure.
  rewrite load_record, lookup_insert_eq. cbn [default from_option].
  case_decide; [|done]. rewrite set_encoders_record. by rewrite alter_insert_eq.
Qed.

Ltac world_step :=
  first
    [ rewrite set_handles_record
    | rewrite set_arrays_record
    | rewrite set_encoders_record
    | rewrite store_record, alter_insert_eq
    | rewrite load_record, lookup_insert_eq; cbn [default from_option] ].

(** *** Creation *)

Lemma nativeCreate_success al w ctx :
  new_EncoderHandle al <> 0 -> to_size_t (ctx1 ctx) <> 0 ->
  new_input al <> 0 -> BrotliEncoderCreateInstance al <> 0 ->
  nativeCreate al w ctx =
    (created_world al w ctx, set_ctx0 (new_EncoderHandle al) ctx,
     NewDirectByteBuffer (new_input al) (to_jlong (to_size_t (ctx1 ctx)))).
Proof.
  intros Hh Hn Hp Hs. destruct w as [hs ars es rs mem]. unfold nativeCreate.
  rewrite (decide_False (P := new_EncoderHandle al = 0)) by done.
  rewrite !(bool_decide_eq_true_2 (new_EncoderHandle al <> 0)) by done.
  lazy beta iota zeta.
  rewrite (decide_False (P := to_size_t (ctx1 ctx) = 0)) by done.
  rewrite (decide_False (P := new_input al = 0)) by done.
  rewrite !(bool_decide_eq_true_2 (new_input al <> 0)) by done.
  lazy beta iota zeta.
  rewrite (decide_False (P := BrotliEncoderCreateInstance al = 0)) by done.
  rewrite !(bool_decide_eq_true_2 (BrotliEncoderCreateInstance al <> 0)) by done.
  lazy beta iota zeta.
  repeat world_step.
  rewrite !apply_parameter_record by reflexivity.
  repeat world_step.
  reflexivity.
Qed.

Lemma nativeCreate_failure al w ctx :
  fresh w al ->
  new_EncoderHandle al = 0 \/ to_size_t (ctx1 ctx) = 0 \/
  new_input al = 0 \/ BrotliEncoderCreateInstance al = 0 ->
  nativeCreate al w ctx = (w, set_ctx0 0 ctx, jnull).
Proof.
  intros (Fh & Fp & Fs) Hfail. destruct w as [hs ars es rs mem].
  cbn [handles arrays encoders] in Fh, Fp, Fs. unfold nativeCreate.
  destruct (decide (new_EncoderHandle al = 0)) as [Hh|Hh].
  { rewrite !(bool_decide_eq_false_2 (new_EncoderHandle al <> 0)) by tauto.
    reflexivity. }
  rewrite !(bool_decide_eq_true_2 (new_EncoderHandle al <> 0)) by done.
  lazy beta iota zeta.
  destruct (decide (to_size_t (ctx1 ctx) = 0)) as [Hn|Hn].
  { lazy beta iota zeta. repeat world_step. cbn [input_start set_input_start].
    rewrite bool_decide_eq_false_2 by tauto.
    repeat world_step. by rewrite delete_insert_id by auto. }
  destruct (decide (new_input al = 0)) as [Hp|Hp].
  { rewrite !(bool_decide_eq_false_2 (new_input al <> 0)) by tauto.
    lazy beta iota zeta. repeat world_step. cbn [input_start set_input_start].
    rewrite Hp, bool_decide_eq_false_2 by tauto.
    repeat world_step. by rewrite delete_insert_id by auto. }
  rewrite !(bool_decide_eq_true_2 (new_input al <> 0)) by done.
  lazy beta iota zeta.
  assert (Hs : BrotliEncoderCreateInstance al = 0) by tauto.
  rewrite (decide_True (P := BrotliEncoderCreateInstance al = 0)) by done.
  rewrite !(bool_decide_eq_false_2 (BrotliEncoderCreateInstance al <> 0)) by tauto.
  lazy beta iota zeta. repeat world_step.
  cbn [input_start set_input_start set_state].
  rewrite (bool_decide_eq_true_2 (new_input al <> 0)) by done.
  repeat world_step.
  by rewrite !delete_insert_id by auto.
Qed.
(** *** Push *)

Lemma accept_input_Some n h h1 :
  accept_input n h = Some h1 <->
  h1 = pending n h /\ (n <> 0 -> ~ input_offset h < input_last h).
Proof.
  unfold accept_input, pending.
  repeat case_decide; split; try intros [= <-]; try intros [-> ?];
    try done; try tauto.
Qed.

Lemma accept_input_None n h :
  accept_input n h = None <-> n <> 0 /\ input_offset h < input_last h.
Proof.
  unfold accept_input. repeat case_decide; split; try done; try tauto.
Qed.

Lemma pending_fields n h :
  state (pending n h) = state h /\ input_start (pending n h) = input_start h /\
  dictionary_refs (pending n h) = dictionary_refs h /\
  dictionary_count (pending n h) = dictionary_count h.
Proof. unfold pending. by case_decide. Qed.

Lemma nativePush_bad_operation w ctx n :
  operation_of_int (to_int (ctx1 ctx)) = None ->
  nativePush w ctx n = Some (w, set_ctx1 0 ctx).
Proof. intros H. unfold nativePush. by rewrite H. Qed.

Lemma nativePush_rejected w ctx n op h :
  operation_of_int (to_int (ctx1 ctx)) = Some op ->
  handles w !! ctx0 ctx = Some h ->
  accept_input n h = None ->
  nativePush w ctx n = Some (w, set_ctx1 0 ctx).
Proof. intros Ho Hh Ha. unfold nativePush. rewrite Ho, Hh. simpl. by rewrite Ha. Qed.

Lemma nativePush_accepted w ctx n op h h1 st :
  operation_of_int (to_int (ctx1 ctx)) = Some op ->
  handles w !! ctx0 ctx = Some h ->
  accept_input n h = Some h1 ->
  encoders w !! state h1 = Some st ->
  nativePush w ctx n =
    Some (let '(status, rest, st') :=
            BrotliEncoderCompressStream (memory w) st op
              (to_size_t (input_last h1 - input_offset h1))
              (input_start h1 + input_offset h1) in
          (pushed_world w (ctx0 ctx) rest st' h1,
           if status then status_tuple (ctx0 ctx) st' (pushed_handle rest h1)
           else set_ctx1 0 ctx)).
Proof.
  intros Ho Hh Ha Hs. unfold nativePush. rewrite Ho, Hh. simpl.
  rewrite Ha, Hs. simpl.
  destruct (BrotliEncoderCompressStream _ _ _ _ _) as [[status rest] st'].
  reflexivity.
Qed.

(** Every way [nativePush] can return. *)
Lemma nativePush_inv w ctx n w' ctx' :
  nativePush w ctx n = Some (w', ctx') ->
  (w' = w /\ ctx' = set_ctx1 0 ctx /\
   (operation_of_int (to_int (ctx1 ctx)) = None \/
    exists h, handles w !! ctx0 ctx = Some h /\ accept_input n h = None)) \/
  (exists op h st,
     operation_of_int (to_int (ctx1 ctx)) = Some op /\
     handles w !! ctx0 ctx = Some h /\
     (n <> 0 -> ~ input_offset h < input_last h) /\
     encoders w !! state h = Some st /\
     let h1 := pending n h in
     let r := BrotliEncoderCompressStream (memory w) st op
                (to_size_t (input_last h1 - input_offset h1))
                (input_start h1 + input_offset h1) in
     w' = pushed_world w (ctx0 ctx) r.1.2 r.2 h1 /\
     ctx' = if r.1.1 then status_tuple (ctx0 ctx) r.2 (pushed_handle r.1.2 h1)
            else set_ctx1 0 ctx).
Proof.
  intros H.
  destruct (operation_of_int (to_int (ctx1 ctx))) as [op|] eqn:Ho.
  2:{ rewrite nativePush_bad_operation in H by done.
      injection H as <- <-. left. auto. }
  destruct (handles w !! ctx0 ctx) as [h|] eqn:Hh.
  2:{ unfold nativePush in H. rewrite Ho, Hh in H. done. }
  destruct (accept_input n h) as [h1|] eqn:Ha.
  2:{ rewrite (nativePush_rejected _ _ _ op h) in H by done.
      injection H as <- <-. left. eauto 10. }
  apply accept_input_Some in Ha as Ha'. destruct Ha' as [-> Hd].
  destruct (pending_fields n h) as (Est & _).
  destruct (encoders w !! state h) as [st|] eqn:Hs.
  2:{ unfold nativePush in H. rewrite Ho, Hh in H. simpl in H.
      rewrite Ha, Est, Hs in H. done. }
  rewrite (nativePush_accepted _ _ _ op h (pending n h) st) in H
    by (try done; by rewrite Est).
  right. exists op, h, st. repeat split; try done.
  - destruct (BrotliEncoderCompressStream _ _ _ _ _) as [[status rest] st'].
    by injection H as <- <-.
  - destruct (BrotliEncoderCompressStream _ _ _ _ _) as [[status rest] st'].
    by injection H as <- <-.
Qed.

(** *** Pull *)

Lemma nativePull_live w ctx h st :
  handles w !! ctx0 ctx = Some h ->
  encoders w !! state h = Some st ->
  nativePull w ctx =
    Some (let '(data, data_length, st') := BrotliEncoderTakeOutput st in
          (set_encoders (<[state h := st']>) w,
           status_tuple (ctx0 ctx) st' h,
           NewDirectByteBuffer data (to_jlong data_length))).
Proof.
  intros Hh Hs. unfold nativePull. rewrite Hh. simpl. rewrite Hs. simpl.
  by destruct (BrotliEncoderTakeOutput st) as [[data len] st'].
Qed.

Lemma nativePull_inv w ctx w' ctx' view :
  nativePull w ctx = Some (w', ctx', view) ->
  exists h st, handles w !! ctx0 ctx = Some h /\
    encoders w !! state h = Some st /\
    w' = set_encoders (<[state h := (BrotliEncoderTakeOutput st).2]>) w.
Proof.
  intros H. unfold nativePull in H.
  destruct (handles w !! ctx0 ctx) as [h|] eqn:Hh; [|done]. simpl in H.
  destruct (encoders w !! state h) as [st|] eqn:Hs; [|done]. simpl in H.
  exists h, st. destruct (BrotliEncoderTakeOutput st) as [[data len] st'].
  by injection H as <- <- <-.
Qed.

(** *** Attach *)

Lemma nativeAttachDictionary_null new_ref w ctx :
  nativeAttachDictionary new_ref w ctx 0 = Some (w, false).
Proof. reflexivity. Qed.

Lemma nativeAttachDictionary_full new_ref w ctx dictionary h :
  handles w !! ctx0 ctx = Some h ->
  15 <= dictionary_count h ->
  nativeAttachDictionary new_ref w ctx dictionary = Some (w, false).
Proof.
  intros Hh Hc. unfold nativeAttachDictionary.
  destruct (decide (dictionary = 0)) as [->|Hd]; [done|].
  rewrite (bool_decide_eq_false_2 (dictionary = 0)) by done. simpl.
  rewrite Hh. simpl. by rewrite decide_True by done.
Qed.

Lemma nativeAttachDictionary_no_ref w ctx dictionary h :
  handles w !! ctx0 ctx = Some h ->
  nativeAttachDictionary 0 w ctx dictionary = Some (w, false).
Proof.
  intros Hh. unfold nativeAttachDictionary.
  destruct (decide (dictionary = 0)) as [->|Hd]; [done|].
  rewrite (bool_decide_eq_false_2 (dictionary = 0)) by done. simpl.
  rewrite Hh. simpl. by case_decide.
Qed.

Lemma GetDirectBufferAddress_retained new_ref w cookie dictionary h :
  GetDirectBufferAddress (retained_world new_ref w cookie dictionary h) new_ref =
  GetDirectBufferAddress w dictionary.
Proof.
  unfold GetDirectBufferAddress, retained_world. simpl.
  rewrite lookup_insert_eq. by destruct (refs w !! dictionary) as [[]|].
Qed.

Lemma nativeAttachDictionary_retained new_ref w ctx dictionary h :
  dictionary <> 0 ->
  handles w !! ctx0 ctx = Some h ->
  dictionary_count h < 15 ->
  new_ref <> 0 ->
  nativeAttachDictionary new_ref w ctx dictionary =
    let w2 := retained_world new_ref w (ctx0 ctx) dictionary h in
    let address := GetDirectBufferAddress w dictionary in
    if decide (address = 0) then Some (w2, false)
    else
      match encoders w !! state h with
      | None => None
      | Some st =>
          Some (set_encoders
                  (<[state h :=
                       (BrotliEncoderAttachPreparedDictionary st address).2]>) w2,
                (BrotliEncoderAttachPreparedDictionary st address).1)
      end.
Proof.
  intros Hd Hh Hc Hr.
  pose proof (GetDirectBufferAddress_retained new_ref w (ctx0 ctx) dictionary h) as Ha.
  destruct w as [hs ars es rs mem]. cbn [handles] in Hh.
  unfold nativeAttachDictionary.
  rewrite (bool_decide_eq_false_2 (dictionary = 0)) by done.
  cbn [andb handles]. rewrite Hh. cbn [mbind option_bind].
  rewrite decide_False by lia.
  rewrite (bool_decide_eq_true_2 (new_ref <> 0)) by done.
  unfold NewGlobalRef. rewrite decide_False by done.
  unfold set_refs. cbn [handles arrays encoders refs memory].
  rewrite Hh. cbn [mbind option_bind].
  rewrite !store_record, alter_alter_eq.
  assert (Hins : alter (set_dictionary_count (dictionary_count h + 1)
                          ∘ set_dictionary_refs
                              (<[Z.to_nat (dictionary_count h):=new_ref]>
                                 (dictionary_refs h))) (ctx0 ctx) hs =
                 <[ctx0 ctx := retained new_ref h]> hs).
  { apply map_eq. intros k. destruct (decide (k = ctx0 ctx)) as [->|Hk].
    - by rewrite lookup_alter_eq, lookup_insert_eq, Hh.
    - by rewrite lookup_alter_ne, lookup_insert_ne. }
  rewrite Hins. unfold retained_world in *. cbn [handles arrays encoders refs memory] in *.
  rewrite Ha.
  destruct (decide (GetDirectBufferAddress _ dictionary = 0)) as [Hz|Hz].
  - rewrite bool_decide_eq_false_2 by tauto. reflexivity.
  - rewrite (bool_decide_eq_true_2 (_ <> 0)) by done.
    cbn [handles encoders]. rewrite lookup_insert_eq.
    cbn [mbind option_bind retained state set_dictionary_count set_dictionary_refs].
    destruct (es !! state h) as [st|]; [|done]. cbn [mbind option_bind].
    by destruct (BrotliEncoderAttachPreparedDictionary _ _).
Qed.

(** Every way [nativeAttachDictionary] can return. *)
Lemma nativeAttachDictionary_inv new_ref w ctx dictionary w' ok :
  nativeAttachDictionary new_ref w ctx dictionary = Some (w', ok) ->
  (w' = w /\ ok = false) \/
  (exists h, handles w !! ctx0 ctx = Some h /\ dictionary_count h < 15 /\
     dictionary <> 0 /\ new_ref <> 0 /\
     handles w' = <[ctx0 ctx := retained new_ref h]> (handles w) /\
     arrays w' = arrays w /\
     refs w' = <[new_ref := default OtherObject (refs w !! dictionary)]> (refs w) /\
     ((encoders w' = encoders w /\ ok = false /\
       GetDirectBufferAddress w dictionary = 0) \/
      (exists st, encoders w !! state h = Some st /\
         GetDirectBufferAddress w dictionary <> 0 /\
         encoders w' =
           <[state h := (BrotliEncoderAttachPreparedDictionary st
                           (GetDirectBufferAddress w dictionary)).2]> (encoders w) /\
         ok = (BrotliEncoderAttachPreparedDictionary st
                 (GetDirectBufferAddress w dictionary)).1))).
Proof.
  intros H.
  destruct (decide (dictionary = 0)) as [->|Hd].
  { rewrite nativeAttachDictionary_null in H. injection H as <- <-. by left. }
  destruct (handles w !! ctx0 ctx) as [h|] eqn:Hh.
  2:{ unfold nativeAttachDictionary in H.
      rewrite (bool_decide_eq_false_2 (dictionary = 0)) in H by done.
      simpl in H. rewrite Hh in H. done. }
  destruct (decide (15 <= dictionary_count h)) as [Hc|Hc].
  { rewrite (nativeAttachDictionary_full _ _ _ _ h) in H by done.
    injection H as <- <-. by left. }
  destruct (decide (new_ref = 0)) as [->|Hr].
  { rewrite (nativeAttachDictionary_no_ref _ _ _ h) in H by done.
    injection H as <- <-. by left. }
  rewrite (nativeAttachDictionary_retained _ _ _ _ h) in H by (done || lia).
  simpl in H. right. exists h. repeat split; try done; try lia.
  - repeat case_match; try done; by injection H as <- <-.
  - repeat case_match; try done; by injection H as <- <-.
  - repeat case_match; try done; by injection H as <- <-.
  - destruct (decide (GetDirectBufferAddress w dictionary = 0)) as [Hz|Hz].
    + injection H as <- <-. by left.
    + destruct (encoders w !! state h) as [st|]; [|done].
      injection H as <- <-. right. by exists st.
Qed.

(** *** Destroy *)

Lemma DeleteGlobalRef_all w (l : list Z) :
  let w' := foldl (fun w ref => DeleteGlobalRef ref w) w l in
  handles w' = handles w /\ arrays w' = arrays w /\ encoders w' = encoders w /\
  refs w' = foldl (fun m ref => delete ref m) (refs w) l.
Proof.
  revert w. induction l as [|r l IH]; intros w; simpl; [done|].
  destruct (IH (DeleteGlobalRef r w)) as (-> & -> & -> & ->). done.
Qed.

Lemma nativeDestroy_inv w ctx w' :
  nativeDestroy w ctx = Some w' ->
  exists h, handles w !! ctx0 ctx = Some h /\ dictionary_count h <= 15 /\
    handles w' = delete (ctx0 ctx) (handles w) /\
    arrays w' = delete (input_start h) (arrays w) /\
    encoders w' = delete (state h) (encoders w) /\
    refs w' = foldl (fun m ref => delete ref m) (refs w)
                (take (Z.to_nat (dictionary_count h)) (dictionary_refs h)).
Proof.
  intros H. unfold nativeDestroy in H.
  destruct (handles w !! ctx0 ctx) as [h|] eqn:Hh; [|done]. simpl in H.
  case_decide; [done|]. injection H as <-. exists h.
  destruct (DeleteGlobalRef_all (set_encoders (delete (state h)) w)
              (take (Z.to_nat (dictionary_count h)) (dictionary_refs h)))
    as (H1 & H2 & H3 & H4).
  simpl. rewrite H1, H2, H3, H4. repeat split; try done. lia.
Qed.

(** *** The heap invariant *)

Lemma nativeCreate_cases al w ctx :
  fresh w al ->
  nativeCreate al w ctx = (w, set_ctx0 0 ctx, jnull) \/
  (new_EncoderHandle al <> 0 /\ to_size_t (ctx1 ctx) <> 0 /\
   new_input al <> 0 /\ BrotliEncoderCreateInstance al <> 0 /\
   nativeCreate al w ctx =
     (created_world al w ctx, set_ctx0 (new_EncoderHandle al) ctx,
      NewDirectByteBuffer (new_input al) (to_jlong (to_size_t (ctx1 ctx))))).
Proof.
  intros Hf.
  destruct (decide (new_EncoderHandle al = 0));
    [left; apply nativeCreate_failure; auto|].
  destruct (decide (to_size_t (ctx1 ctx) = 0));
    [left; apply nativeCreate_failure; auto|].
  destruct (decide (new_input al = 0));
    [left; apply nativeCreate_failure; auto|].
  destruct (decide (BrotliEncoderCreateInstance al = 0));
    [left; apply nativeCreate_failure; auto|].
  right. repeat split; try done. by apply nativeCreate_success.
Qed.

Lemma registry_ok_created al : registry_ok (created_handle al).
Proof. unfold registry_ok. simpl. split; [reflexivity|lia]. Qed.

Lemma heap_ok_created al w ctx :
  fresh w al ->
  new_EncoderHandle al <> 0 -> new_input al <> 0 ->
  BrotliEncoderCreateInstance al <> 0 ->
  heap_ok w -> heap_ok (created_world al w ctx).
Proof.
  intros (Fh & Fp & Fs) Hh Hp Hs [Hown Hinj].
  specialize (Fh Hh). specialize (Fp Hp). specialize (Fs Hs).
  assert (Hold : forall a h, handles w !! a = Some h ->
            state h <> BrotliEncoderCreateInstance al /\
            input_start h <> new_input al).
  { intros a h Ha. destruct (Hown a h Ha) as ([? He] & [? Hr] & _).
    split; intros Heq; rewrite Heq in *; congruence. }
  split.
  - intros a h. unfold created_world. simpl.
    rewrite lookup_insert. case_decide as Ha.
    + intros [= <-]. simpl. rewrite !lookup_insert_eq.
      repeat split; eauto; try apply registry_ok_created.
    + intros Hl. destruct (Hown a h Hl) as (He & Hr & Hreg).
      destruct (Hold a h Hl) as [Hne1 Hne2].
      rewrite !lookup_insert_ne by done. done.
  - intros a a' h h'. unfold created_world. simpl.
    rewrite !lookup_insert.
    repeat case_decide; subst; try done.
    + intros [= <-] Hl'. simpl. destruct (Hold a' h' Hl') as [? ?].
      intros [?|?]; congruence.
    + intros Hl [= <-]. simpl. destruct (Hold a h Hl) as [? ?].
      intros [?|?]; congruence.
    + apply Hinj.
Qed.

(** Rewriting one handle in place, keeping what it owns. *)
Lemma heap_ok_update w w' a h h' :
  heap_ok w ->
  handles w !! a = Some h ->
  handles w' = <[a := h']> (handles w) ->
  state h' = state h -> input_start h' = input_start h -> registry_ok h' ->
  arrays w' = arrays w ->
  (forall k, is_Some (encoders w !! k) -> is_Some (encoders w' !! k)) ->
  heap_ok w'.
Proof.
  intros [Hown Hinj] Ha Hhs Hst Hin Hreg Har Hen.
  assert (Hback : forall a1 h1, handles w' !! a1 = Some h1 ->
            exists h0, handles w !! a1 = Some h0 /\ state h0 = state h1 /\
                       input_start h0 = input_start h1 /\
                       (a1 <> a -> h0 = h1) /\ (a1 = a -> h1 = h')).
  { intros a1 h1. rewrite Hhs, lookup_insert. case_decide as Hd.
    - subst a1. intros [= <-]. exists h. repeat split; auto. done.
    - intros Hl. exists h1. repeat split; auto. done. }
  split.
  - intros a1 h1 Hl. destruct (Hback a1 h1 Hl) as (h0 & Hl0 & E1 & E2 & Hne & Heq).
    destruct (Hown a1 h0 Hl0) as (He & Hr & Hreg0).
    rewrite <- E1, <- E2, Har. split; [auto|]. split; [done|].
    destruct (decide (a1 = a)) as [Hd|Hd].
    + by rewrite (Heq Hd).
    + by rewrite <- (Hne Hd).
  - intros a1 a2 h1 h2 Hl1 Hl2 Hs.
    destruct (Hback a1 h1 Hl1) as (h01 & Hl01 & E1 & E2 & _).
    destruct (Hback a2 h2 Hl2) as (h02 & Hl02 & E3 & E4 & _).
    apply (Hinj a1 a2 h01 h02 Hl01 Hl02). rewrite E1, E2, E3, E4. done.
Qed.

Lemma heap_ok_same_handles w w' :
  handles w' = handles w -> arrays w' = arrays w ->
  (forall k, is_Some (encoders w !! k) -> is_Some (encoders w' !! k)) ->
  heap_ok w -> heap_ok w'.
Proof.
  intros Hh Ha He [Hown Hinj]. split.
  - intros a h. rewrite Hh, Ha. intros Hl.
    destruct (Hown a h Hl) as (? & ? & ?). auto.
  - intros a a' h h'. rewrite Hh. apply Hinj.
Qed.

Lemma heap_ok_destroyed w w' a h :
  heap_ok w ->
  handles w !! a = Some h ->
  handles w' = delete a (handles w) ->
  arrays w' = delete (input_start h) (arrays w) ->
  encoders w' = delete (state h) (encoders w) ->
  heap_ok w'.
Proof.
  intros [Hown Hinj] Ha Hhs Har Hen. split.
  - intros a1 h1. rewrite Hhs, Har, Hen, lookup_delete. case_decide as Hd; [done|].
    intros Hl. destruct (Hown a1 h1 Hl) as (He & Hr & Hreg).
    rewrite !lookup_delete_ne; [done| |].
    + intros Heq. apply Hd. symmetry. apply (Hinj a1 a h1 h Hl Ha). auto.
    + intros Heq. apply Hd. symmetry. apply (Hinj a1 a h1 h Hl Ha). auto.
  - intros a1 a2 h1 h2. rewrite Hhs, !lookup_delete.
    repeat case_decide; try done. apply Hinj.
Qed.

Lemma registry_ok_pushed rest n h :
  registry_ok h -> registry_ok (pushed_handle rest (pending n h)).
Proof. unfold registry_ok, pushed_handle, pending. by case_decide. Qed.

Lemma registry_ok_retained ref h :
  registry_ok h -> dictionary_count h < 15 -> registry_ok (retained ref h).
Proof.
  unfold registry_ok, retained. simpl. intros [Hl Hc] Hlt.
  rewrite length_insert. split; [done|lia].
Qed.

Lemma heap_ok_exec w c w' :
  heap_ok w -> well_formed w c -> exec w c = Some w' -> heap_ok w'.
Proof.
  intros Hok Hwf Hex. destruct c as [al ctx|ctx n|ctx|r ctx d|ctx]; simpl in *.
  - injection Hex as <-.
    destruct (nativeCreate_cases al w ctx Hwf) as [->|(? & ? & ? & ? & ->)];
      simpl; [done|]. by apply heap_ok_created.
  - destruct (nativePush w ctx n) as [[w1 ctx1]|] eqn:Hp; [|done].
    injection Hex as <-.
    destruct (nativePush_inv _ _ _ _ _ Hp) as
      [(-> & _)|(op & h & st & _ & Hh & _ & Hs & -> & _)]; [done|].
    destruct (pending_fields n h) as (E1 & E2 & _).
    eapply (heap_ok_update w _ (ctx0 ctx) h); try done.
    + destruct Hok as [Hown _]. destruct (Hown _ _ Hh) as (_ & _ & Hreg).
      by apply registry_ok_pushed.
    + intros k. cbn [encoders pushed_world]. rewrite lookup_insert_is_Some.
      destruct (decide (state (pending n h) = k)); auto.
  - destruct (nativePull w ctx) as [[[w1 ctx1] v]|] eqn:Hp; [|done].
    injection Hex as <-.
    destruct (nativePull_inv _ _ _ _ _ Hp) as (h & st & Hh & Hs & ->).
    apply (heap_ok_same_handles w); [done|done| |done].
    intros k. cbn [encoders set_encoders]. rewrite lookup_insert_is_Some.
    destruct (decide (state h = k)); auto.
  - destruct (nativeAttachDictionary r w ctx d) as [[w1 ok]|] eqn:Hp; [|done].
    injection Hex as <-.
    destruct (nativeAttachDictionary_inv _ _ _ _ _ _ Hp) as
      [(-> & _)|(h & Hh & Hc & _ & _ & Hhs & Har & _ & Hen)]; [done|].
    eapply (heap_ok_update w _ (ctx0 ctx) h); try done.
    + destruct Hok as [Hown _]. destruct (Hown _ _ Hh) as (_ & _ & Hreg).
      by apply registry_ok_retained.
    + intros k. destruct Hen as [(-> & _)|(st & _ & _ & -> & _)]; [done|].
      rewrite lookup_insert_is_Some. destruct (decide (state h = k)); auto.
  - destruct (nativeDestroy_inv _ _ _ Hex) as (h & Hh & _ & H1 & H2 & H3 & _).
    by eapply heap_ok_destroyed.
Qed.

Lemma Reachable_heap_ok D w : Reachable D w -> heap_ok w.
Proof.
  induction 1 as [w H0|w c w' _ IH Hwf _ Hex|w w' _ IH Hh Ha He].
  - split; intros *; rewrite H0, lookup_empty; done.
  - by eapply heap_ok_exec.
  - apply (heap_ok_same_handles w); [done|done| |done]. intros k. by rewrite He.
Qed.

Lemma Reachable_weaken (D D' : World E -> Call -> Prop) w :
  (forall w c, D w c -> D' w c) -> Reachable D w -> Reachable D' w.
Proof.
  intros HD. induction 1.
  - by apply Reachable_start.
  - eapply Reachable_call; eauto.
  - eapply Reachable_env; eauto.
Qed.

(** *** The input window *)

Lemma window_ordered_pending n h :
  window_ordered h -> window_ordered (pending n h).
Proof.
  unfold window_ordered, pending. case_decide; [|done]. intros _.
  cbn [input_offset input_last set_input_last set_input_offset].
  pose proof (to_size_t_range n). lia.
Qed.

(** With an ordered window no subtraction of the push wraps around. *)
Lemma pushed_handle_exact rest h1 :
  window_ordered h1 ->
  0 <= rest <= input_last h1 - input_offset h1 ->
  pushed_handle rest h1 =
    set_input_offset
      (input_offset h1 + (input_last h1 - input_offset h1 - rest)) h1.
Proof.
  intros [Ho Hl] Hr. unfold pushed_handle. f_equal.
  rewrite to_size_t_small by lia. lia.
Qed.

Lemma fed_size_exact h1 :
  window_ordered h1 ->
  to_size_t (input_last h1 - input_offset h1) = input_last h1 - input_offset h1.
Proof. intros [Ho Hl]. apply to_size_t_small. lia. Qed.

Lemma window_ordered_pushed rest h1 :
  window_ordered h1 ->
  0 <= rest <= input_last h1 - input_offset h1 ->
  window_ordered (pushed_handle rest h1).
Proof.
  intros Hw Hr. rewrite pushed_handle_exact by done.
  destruct Hw as [Ho Hl]. unfold window_ordered.
  cbn [input_offset input_last set_input_offset]. lia.
Qed.

Lemma consumed_in_window mem st op h1 :
  consumes_prefix E -> window_ordered h1 ->
  0 <= (BrotliEncoderCompressStream mem st op
          (to_size_t (input_last h1 - input_offset h1))
          (input_start h1 + input_offset h1)).1.2
    <= input_last h1 - input_offset h1.
Proof.
  intros Hc Hw. rewrite fed_size_exact by done.
  apply Hc. destruct Hw. lia.
Qed.

Lemma ordered_exec w c w' :
  consumes_prefix E ->
  every_handle (fun _ => window_ordered) w ->
  well_formed w c -> exec w c = Some w' ->
  every_handle (fun _ => window_ordered) w'.
Proof.
  intros Hc Hord Hwf Hex a1 h1.
  destruct c as [al ctx|ctx n|ctx|r ctx d|ctx]; cbn [exec] in Hex.
  - injection Hex as <-.
    destruct (nativeCreate_cases al w ctx Hwf) as [->|(_ & _ & _ & _ & ->)];
      cbn [fst]; [apply Hord|].
    unfold created_world. cbn [handles]. rewrite lookup_insert.
    case_decide; [|apply Hord]. intros [= <-].
    unfold window_ordered. cbn [input_offset input_last created_handle]. lia.
  - destruct (nativePush w ctx n) as [[w1 c1]|] eqn:Hp; [|done].
    injection Hex as <-.
    destruct (nativePush_inv _ _ _ _ _ Hp) as
      [(-> & _)|(op & h & st & _ & Hh & _ & Hs & -> & _)]; [apply Hord|].
    unfold pushed_world. cbn [handles]. rewrite lookup_insert.
    case_decide; [|apply Hord]. intros [= <-].
    apply window_ordered_pushed.
    + apply window_ordered_pending, (Hord _ _ Hh).
    + apply consumed_in_window; [done|].
      apply window_ordered_pending, (Hord _ _ Hh).
  - destruct (nativePull w ctx) as [[[w1 c1] v]|] eqn:Hp; [|done].
    injection Hex as <-.
    destruct (nativePull_inv _ _ _ _ _ Hp) as (h & st & Hh & Hs & ->).
    apply Hord.
  - destruct (nativeAttachDictionary r w ctx d) as [[w1 ok]|] eqn:Hp; [|done].
    injection Hex as <-.
    destruct (nativeAttachDictionary_inv _ _ _ _ _ _ Hp) as
      [(-> & _)|(h & Hh & _ & _ & _ & -> & _)]; [apply Hord|].
    rewrite lookup_insert. case_decide; [|apply Hord]. intros [= <-].
    apply (Hord _ _ Hh).
  - destruct (nativeDestroy_inv _ _ _ Hex) as (h & Hh & _ & -> & _).
    rewrite lookup_delete. case_decide; [done|apply Hord].
Qed.

Lemma Reachable_ordered D w :
  consumes_prefix E -> Reachable D w ->
  every_handle (fun _ => window_ordered) w.
Proof.
  intros Hc. induction 1 as [w H0|w c w' _ IH Hwf _ Hex|w w' _ IH Hh Ha He].
  - intros a h. by rewrite H0, lookup_empty.
  - by eapply ordered_exec.
  - intros a h. rewrite Hh. apply IH.
Qed.

Lemma in_buffer_exec w c w' :
  consumes_prefix E -> heap_ok w ->
  every_handle (fun _ => window_ordered) w ->
  every_handle window_in_buffer w ->
  well_formed w c -> within_capacity w c -> exec w c = Some w' ->
  every_handle window_in_buffer w'.
Proof.
  intros Hc [Hown Hinj] Hord Hbuf Hwf Hcap Hex a1 h1.
  destruct c as [al ctx|ctx n|ctx|r ctx d|ctx]; cbn [exec] in Hex.
  - injection Hex as <-.
    destruct (nativeCreate_cases al w ctx Hwf) as [->|(_ & _ & Hp & _ & ->)];
      cbn [fst]; [apply Hbuf|].
    destruct Hwf as (_ & Fp & _). specialize (Fp Hp).
    unfold created_world, window_in_buffer. cbn [handles arrays].
    rewrite lookup_insert. case_decide.
    + intros [= <-]. cbn [input_start input_offset input_last created_handle].
      exists (to_size_t (ctx1 ctx)). rewrite lookup_insert_eq.
      pose proof (to_size_t_range (ctx1 ctx)). repeat split; (done || lia).
    + intros Hl. destruct (Hbuf _ _ Hl) as (C & HC & Hw).
      exists C. split; [|done]. rewrite lookup_insert_ne; [done|]. congruence.
  - destruct (nativePush w ctx n) as [[w1 c1]|] eqn:Hp; [|done].
    injection Hex as <-.
    destruct (nativePush_inv _ _ _ _ _ Hp) as
      [(-> & _)|(op & h & st & _ & Hh & _ & Hs & -> & _)]; [apply Hbuf|].
    unfold pushed_world, window_in_buffer. cbn [handles arrays].
    rewrite lookup_insert. case_decide; [|apply Hbuf]. intros [= <-].
    destruct (Hbuf _ _ Hh) as (C & HC & Hw1 & Hw2).
    pose proof (Hord _ _ Hh) as Ho.
    pose proof (window_ordered_pending n h Ho) as Ho1.
    pose proof (consumed_in_window (memory w) st op _ Hc Ho1) as Hrest.
    rewrite pushed_handle_exact by done.
    destruct (pending_fields n h) as (_ & E2 & _).
    cbn [input_start input_offset input_last set_input_offset].
    exists C. split; [by rewrite E2|].
    assert (input_last (pending n h) <= C).
    { unfold pending. case_decide as Hn; [|done].
      cbn [input_last set_input_last]. specialize (Hcap h C Hh HC).
      cbn [well_formed] in Hwf. unfold is_jint in Hwf.
      rewrite to_size_t_small; lia. }
    destruct Ho1. lia.
  - destruct (nativePull w ctx) as [[[w1 c1] v]|] eqn:Hp; [|done].
    injection Hex as <-.
    destruct (nativePull_inv _ _ _ _ _ Hp) as (h & st & Hh & Hs & ->).
    apply Hbuf.
  - destruct (nativeAttachDictionary r w ctx d) as [[w1 ok]|] eqn:Hp; [|done].
    injection Hex as <-.
    destruct (nativeAttachDictionary_inv _ _ _ _ _ _ Hp) as
      [(-> & _)|(h & Hh & _ & _ & _ & Hhs & Har & _)]; [apply Hbuf|].
    unfold window_in_buffer. rewrite Hhs, Har, lookup_insert.
    case_decide; [|apply Hbuf]. intros [= <-]. apply (Hbuf _ _ Hh).
  - destruct (nativeDestroy_inv _ _ _ Hex) as (h & Hh & _ & Hhs & Har & _).
    unfold window_in_buffer. rewrite Hhs, Har, lookup_delete.
    case_decide as Hd; [done|]. intros Hl.
    destruct (Hbuf _ _ Hl) as (C & HC & Hw). exists C. split; [|done].
    rewrite lookup_delete_ne; [done|]. intros Heq. apply Hd.
    symmetry. apply (Hinj a1 (ctx0 ctx) h1 h Hl Hh). auto.
Qed.

(** *** Statements about single calls *)


(** C6.  When the allocation of the handle structure, of the scratch array
    or of the engine state fails, [nativeCreate] leaves the world as it
    found it (what was allocated is released), writes 0 into slot 0 of the
    tuple whatever was there, leaves the other slots alone and returns
    null.  There is no third outcome besides this one and the complete
    handle: on success the cookie is the new, non-null handle, which is live
    and owns a live engine and a live scratch array. *)
Theorem create_is_all_or_nothing al w ctx :
  fresh w al ->
  let '(w', ctx', view) := nativeCreate al w ctx in
  (new_EncoderHandle al = 0 \/ new_input al = 0 \/
   BrotliEncoderCreateInstance al = 0 ->
   w' = w /\ ctx0 ctx' = 0 /\ view = jnull) /\
  ctx1 ctx' = ctx1 ctx /\ ctx2 ctx' = ctx2 ctx /\
  ctx3 ctx' = ctx3 ctx /\ ctx4 ctx' = ctx4 ctx /\
  ((w' = w /\ ctx0 ctx' = 0 /\ view = jnull) \/
   (ctx0 ctx' = new_EncoderHandle al /\ ctx0 ctx' <> 0 /\
    exists h,
      handles w' !! ctx0 ctx' = Some h /\
      state h = BrotliEncoderCreateInstance al /\ state h <> 0 /\
      input_start h = new_input al /\ input_start h <> 0 /\
      is_Some (encoders w' !! state h) /\
      arrays w' !! input_start h = Some (to_size_t (ctx1 ctx)) /\
      view = NewDirectByteBuffer (input_start h)
               (to_jlong (to_size_t (ctx1 ctx))) /\
      w' = created_world al w ctx)).
Proof.
  intros Hf.
  destruct (nativeCreate_cases al w ctx Hf) as [H|(Hh & Hn & Hp & Hs & H)];
    rewrite H.
  - split; [done|]. repeat (split; [reflexivity|]). by left.
  - split; [intros [?|[?|?]]; done|]. repeat (split; [reflexivity|]).
    right. split; [reflexivity|]. split; [exact Hh|].
    exists (created_handle al).
    unfold created_world.
    cbn [handles arrays encoders ctx0 set_ctx0 state input_start created_handle].
    rewrite !lookup_insert_eq. repeat split; eauto.
Qed.

(** C7.  On a live handle of a reachable world [nativePull] returns: it
    sets the success flag to 1, hands out the chunk
    [BrotliEncoderTakeOutput] gave, and writes into slots 2, 3 and 4 the
    values 1 or 0 of hasMoreOutput and isFinished of the engine state after
    the take and of hasRemainingInput of the input window, which like every
    handle it leaves unchanged. *)
Theorem pull_always_succeeds w ctx h :
  Reachable any_call w ->
  handles w !! ctx0 ctx = Some h ->
  exists st, encoders w !! state h = Some st /\
    let '(data, data_length, st') := BrotliEncoderTakeOutput st in
    exists w' ctx',
      nativePull w ctx =
        Some (w', ctx', NewDirectByteBuffer data (to_jlong data_length)) /\
      ctx0 ctx' = ctx0 ctx /\
      ctx1 ctx' = 1 /\
      ctx2 ctx' = (if BrotliEncoderHasMoreOutput st' then 1 else 0) /\
      ctx3 ctx' = (if decide (input_offset h = input_last h) then 0 else 1) /\
      ctx4 ctx' = (if BrotliEncoderIsFinished st' then 1 else 0) /\
      handles w' = handles w /\
      encoders w' = <[state h := st']> (encoders w) /\
      arrays w' = arrays w /\ refs w' = refs w /\ memory w' = memory w.
Proof.
  intros Hr Hh. destruct (Reachable_heap_ok _ _ Hr) as [Hown _].
  destruct (Hown _ _ Hh) as ([st Hs] & _). exists st. split; [done|].
  rewrite (nativePull_live w ctx h st Hh Hs).
  destruct (BrotliEncoderTakeOutput st) as [[data len] st'].
  eexists _, _. split; [reflexivity|].
  cbn [ctx0 ctx1 ctx2 ctx3 ctx4 status_tuple handles encoders arrays refs
       memory set_encoders].
  split; [reflexivity|]. split; [reflexivity|].
  split; [by destruct (BrotliEncoderHasMoreOutput st')|].
  split; [|split; [by destruct (BrotliEncoderIsFinished st')|done]].
  case_decide; [by rewrite bool_decide_eq_false_2 by tauto|].
  by rewrite bool_decide_eq_true_2.
Qed.

(** C8.  [nativePrepareDictionary] returns null when the dictionary
    reference is null and when the capacity of its buffer is at most 0 or at
    least 2^30; for a capacity in [1, 2^30) on a resolvable buffer it calls
    the engine's prepare with [BROTLI_MAX_QUALITY], and what it returns does
    not depend on any encoder of the world. *)
Theorem prepare_dictionary_bounds w dictionary type :
  (dictionary = 0 -> nativePrepareDictionary w dictionary type = jnull) /\
  (GetDirectBufferCapacity w dictionary <= 0 \/
   2 ^ 30 <= GetDirectBufferCapacity w dictionary ->
   nativePrepareDictionary w dictionary type = jnull) /\
  (dictionary <> 0 -> GetDirectBufferAddress w dictionary <> 0 ->
   1 <= GetDirectBufferCapacity w dictionary < 2 ^ 30 ->
   nativePrepareDictionary w dictionary type =
     let prepared :=
       BrotliEncoderPrepareDictionary (memory w) (to_int type)
         (GetDirectBufferCapacity w dictionary)
         (GetDirectBufferAddress w dictionary) BROTLI_MAX_QUALITY in
     if decide (prepared = 0) then jnull else NewDirectByteBuffer prepared 4) /\
  (forall w2, refs w2 = refs w -> memory w2 = memory w ->
     nativePrepareDictionary w2 dictionary type =
     nativePrepareDictionary w dictionary type).
Proof.
  assert (Hshift : Z.shiftl 1 30 = 2 ^ 30) by reflexivity.
  unfold nativePrepareDictionary. rewrite Hshift. repeat split.
  - intros ->. reflexivity.
  - intros Hcap. repeat case_decide; try done; lia.
  - intros Hd Ha Hc. rewrite !decide_False by (done || lia).
    rewrite to_size_t_small by lia. reflexivity.
  - intros w2 Hr Hm. unfold GetDirectBufferAddress, GetDirectBufferCapacity.
    rewrite Hr, Hm. reflexivity.
Qed.

(** C9.  A push whose operation tag (the [int] read from [context[1]]) is
    none of 0, 1, 2 returns at once with the success flag cleared; the
    world, and with it every handle and engine state, is unchanged. *)
Theorem push_unknown_operation_fails w ctx input_length :
  to_int (ctx1 ctx) <> 0 -> to_int (ctx1 ctx) <> 1 -> to_int (ctx1 ctx) <> 2 ->
  nativePush w ctx input_length = Some (w, set_ctx1 0 ctx) /\
  ctx1 (set_ctx1 0 ctx) = 0.
Proof.
  intros H0 H1 H2. split; [|reflexivity].
  apply nativePush_bad_operation. unfold operation_of_int.
  by rewrite !decide_False by done.
Qed.

(** C1.  A push that reports success went through line 169 on the pending
    window.  The operation is the one the tag names (0 PROCESS, 1 FLUSH,
    2 FINISH).  If the push brought new input, the old window was drained
    and the window is [0, (size_t) input_length), which is [0, input_length)
    for every byte count; otherwise it is the old one.  The engine was
    called with that operation on the [limit - offset] bytes at
    [input_start + offset]; afterwards [input_offset] is [offset] plus
    exactly what the engine consumed, nothing else of the handle has
    changed, and the tuple carries the cookie, the success flag 1 and, as 1
    or 0, hasMoreOutput, hasRemainingInput ([input_offset <> input_last]
    after the step) and isFinished. *)
Theorem push_drives_one_step w ctx input_length w' ctx' :
  consumes_prefix E -> Reachable any_call w -> is_jint input_length ->
  nativePush w ctx input_length = Some (w', ctx') -> ctx1 ctx' = 1 ->
  exists op h st offset limit h',
    (to_int (ctx1 ctx) = 0 /\ op = BROTLI_OPERATION_PROCESS \/
     to_int (ctx1 ctx) = 1 /\ op = BROTLI_OPERATION_FLUSH \/
     to_int (ctx1 ctx) = 2 /\ op = BROTLI_OPERATION_FINISH) /\
    handles w !! ctx0 ctx = Some h /\
    encoders w !! state h = Some st /\
    (input_length <> 0 ->
       input_offset h = input_last h /\ offset = 0 /\
       limit = input_length mod 2 ^ 64 /\
       (0 < input_length -> limit = input_length)) /\
    (input_length = 0 -> offset = input_offset h /\ limit = input_last h) /\
    0 <= offset <= limit /\
    let r := BrotliEncoderCompressStream (memory w) st op
               (limit - offset) (input_start h + offset) in
    let consumed := limit - offset - r.1.2 in
    r.1.1 = true /\
    0 <= consumed <= limit - offset /\
    handles w' = <[ctx0 ctx := h']> (handles w) /\
    input_offset h' = offset + consumed /\
    input_last h' = limit /\
    input_start h' = input_start h /\
    state h' = state h /\
    dictionary_refs h' = dictionary_refs h /\
    dictionary_count h' = dictionary_count h /\
    encoders w' = <[state h := r.2]> (encoders w) /\
    arrays w' = arrays w /\ refs w' = refs w /\ memory w' = memory w /\
    ctx0 ctx' = ctx0 ctx /\
    ctx2 ctx' = (if BrotliEncoderHasMoreOutput r.2 then 1 else 0) /\
    ctx3 ctx' = (if decide (offset + consumed = limit) then 0 else 1) /\
    ctx4 ctx' = (if BrotliEncoderIsFinished r.2 then 1 else 0).
Proof.
  intros Hc Hr Hj Hp Hok.
  destruct (nativePush_inv _ _ _ _ _ Hp) as
    [(_ & -> & _)|(op & h & st & Ho & Hh & Hd & Hs & Hw & Hctx)]; [done|].
  pose proof (Reachable_ordered _ _ Hc Hr _ _ Hh) as Hord.
  pose proof (window_ordered_pending input_length h Hord) as Hord1.
  pose proof (consumed_in_window (memory w) st op _ Hc Hord1) as Hrest.
  destruct (pending_fields input_length h) as (E1 & E2 & E3 & E4).
  cbv zeta in Hw, Hctx. unfold pushed_world in Hw.
  rewrite fed_size_exact, E2 in Hw, Hctx, Hrest by done.
  rewrite pushed_handle_exact in Hw, Hctx by done.
  set (offset := input_offset (pending input_length h)) in *.
  set (limit := input_last (pending input_length h)) in *.
  set (r := BrotliEncoderCompressStream (memory w) st op (limit - offset)
              (input_start h + offset)) in *.
  set (h' := set_input_offset (offset + (limit - offset - r.1.2))
               (pending input_length h)) in *.
  assert (Hstatus : r.1.1 = true).
  { destruct r.1.1; [done|]. subst ctx'. done. }
  rewrite Hstatus in Hctx.
  exists op, h, st, offset, limit, h'.
  split.
  { unfold operation_of_int in Ho.
    repeat case_decide; try done; injection Ho as <-; tauto. }
  split; [exact Hh|]. split; [exact Hs|]. split.
  { intros Hn. subst offset limit. unfold pending.
    rewrite decide_True by done.
    cbn [input_offset input_last set_input_last set_input_offset].
    split; [destruct Hord; specialize (Hd Hn); lia|]. split; [done|].
    split; [done|]. intros Hpos. apply Z.mod_small.
    unfold is_jint in Hj. lia. }
  split.
  { intros ->. done. }
  split; [apply Hord1|].
  cbv zeta. fold r.
  split; [exact Hstatus|]. split; [lia|].
  split; [by subst w'|]. split; [reflexivity|]. split; [reflexivity|].
  split; [exact E2|]. split; [exact E1|]. split; [exact E3|]. split; [exact E4|].
  split; [subst w'; cbn [encoders]; by rewrite E1|].
  split; [by subst w'|]. split; [by subst w'|]. split; [by subst w'|].
  subst ctx'. cbn [ctx0 ctx2 ctx3 ctx4 status_tuple].
  split; [reflexivity|]. split; [by destruct (BrotliEncoderHasMoreOutput r.2)|].
  split; [|by destruct (BrotliEncoderIsFinished r.2)].
  cbn [input_offset input_last h' set_input_offset]. fold limit.
  case_decide; [by rewrite bool_decide_eq_false_2 by tauto|].
  by rewrite bool_decide_eq_true_2.
Qed.

Lemma nativePull_reads_cookie_only w ctx v :
  nativePull w (set_ctx1 v ctx) = nativePull w ctx.
Proof. reflexivity. Qed.

(** C2.  In a reachable world a push that announces new input while
    [input_offset <> input_last] returns with the success flag cleared and
    the world unchanged, so the pull that follows answers what a pull would
    have answered before. *)
Theorem push_over_pending_input_is_rejected w ctx input_length h :
  consumes_prefix E -> Reachable any_call w ->
  handles w !! ctx0 ctx = Some h ->
  input_length <> 0 -> input_offset h <> input_last h ->
  nativePush w ctx input_length = Some (w, set_ctx1 0 ctx) /\
  ctx1 (set_ctx1 0 ctx) = 0 /\
  nativePull w (set_ctx1 0 ctx) = nativePull w ctx.
Proof.
  intros Hc Hr Hh Hn Hne.
  pose proof (Reachable_ordered _ _ Hc Hr _ _ Hh) as [Hord _].
  split; [|split; [reflexivity|apply nativePull_reads_cookie_only]].
  destruct (operation_of_int (to_int (ctx1 ctx))) as [op|] eqn:Ho.
  - apply (nativePush_rejected w ctx input_length op h); try done.
    apply accept_input_None. split; [done|lia].
  - by apply nativePush_bad_operation.
Qed.

(** C3, as amended.  When no push announces more bytes than the scratch
    buffer of its handle holds (and none announces a negative count), and the
    engine consumes no more than it is offered, then after every call
    [0 <= input_offset <= input_last <= C] holds of every live handle, [C]
    being the size of the handle's scratch buffer. *)
Theorem window_stays_in_buffer w :
  consumes_prefix E -> Reachable within_capacity w ->
  every_handle window_in_buffer w.
Proof.
  intros Hc. induction 1 as [w H0|w c w' Hr IH Hwf Hcap Hex|w w' _ IH Hh Ha He].
  - intros a h. by rewrite H0, lookup_empty.
  - eapply in_buffer_exec; try done.
    + by eapply Reachable_heap_ok.
    + by eapply Reachable_ordered.
  - intros a h. unfold window_in_buffer. rewrite Hh, Ha. apply IH.
Qed.

(** *** The dictionary registry *)

Lemma GetDirectBufferAddress_buffer w dictionary address capacity :
  refs w !! dictionary = Some (DirectBuffer address capacity) ->
  GetDirectBufferAddress w dictionary = address.
Proof. intros H. unfold GetDirectBufferAddress. by rewrite H. Qed.

Lemma attach_each_succeeds (new_refs : list Z) :
  forall w ctx dictionary address capacity h st,
    accepts_dictionaries E ->
    dictionary <> 0 ->
    refs w !! dictionary = Some (DirectBuffer address capacity) ->
    address <> 0 ->
    handles w !! ctx0 ctx = Some h ->
    encoders w !! state h = Some st ->
    dictionary_count h + Z.of_nat (length new_refs) <= 15 ->
    Forall (fun r => r <> 0 /\ r <> dictionary) new_refs ->
    exists w' h',
      attach_each w ctx (map (fun r => (r, dictionary)) new_refs) =
        Some (w', replicate (length new_refs) true) /\
      handles w' !! ctx0 ctx = Some h' /\
      dictionary_count h' = dictionary_count h + Z.of_nat (length new_refs).
Proof.
  induction new_refs as [|r rs IH];
    intros w ctx d address capacity h st Hacc Hd Hbuf Haddr Hh Hs Hc Hall.
  - exists w, h. cbn [attach_each map length replicate]. split; [done|].
    split; [done|]. cbn [length]. lia.
  - apply Forall_cons in Hall as [[Hr0 Hrd] Hall].
    cbn [length] in Hc.
    cbn [attach_each map].
    rewrite (nativeAttachDictionary_retained r w ctx d h) by (done || lia).
    cbv zeta. rewrite (GetDirectBufferAddress_buffer _ _ _ _ Hbuf).
    rewrite decide_False by done. rewrite Hs, Hacc.
    set (w1 := set_encoders _ _).
    destruct (IH w1 ctx d address capacity (retained r h)
                (BrotliEncoderAttachPreparedDictionary st address).2)
      as (w' & h' & Hrun & Hh' & Hcount); try done.
    + subst w1. cbn [refs set_encoders retained_world].
      by rewrite lookup_insert_ne.
    + subst w1. cbn [handles set_encoders retained_world].
      by rewrite lookup_insert_eq.
    + subst w1. cbn [encoders set_encoders retained_world state retained
                     set_dictionary_count set_dictionary_refs].
      by rewrite lookup_insert_eq.
    + cbn [dictionary_count retained set_dictionary_count]. lia.
    + exists w', h'. rewrite Hrun. split; [done|]. split; [done|].
      rewrite Hcount. cbn [dictionary_count retained set_dictionary_count length].
      lia.
Qed.

(** C4.  In a reachable world a handle never counts more than 15
    dictionaries.  An attach on a handle that counts 15 returns false and
    leaves the world unchanged.  With an engine that accepts them, 15
    attaches of a prepared dictionary on a handle that counts none all return
    true and leave the count at 15. *)
Theorem registry_holds_at_most_15 w ctx h :
  Reachable any_call w ->
  handles w !! ctx0 ctx = Some h ->
  dictionary_count h <= 15 /\
  (dictionary_count h = 15 ->
   forall new_ref dictionary,
     nativeAttachDictionary new_ref w ctx dictionary = Some (w, false)) /\
  (accepts_dictionaries E -> dictionary_count h = 0 ->
   forall dictionary address capacity new_refs,
     dictionary <> 0 ->
     refs w !! dictionary = Some (DirectBuffer address capacity) ->
     address <> 0 ->
     length new_refs = 15%nat ->
     Forall (fun r => r <> 0 /\ r <> dictionary) new_refs ->
     exists w' h',
       attach_each w ctx (map (fun r => (r, dictionary)) new_refs) =
         Some (w', replicate 15 true) /\
       handles w' !! ctx0 ctx = Some h' /\ dictionary_count h' = 15).
Proof.
  intros Hr Hh. destruct (Reachable_heap_ok _ _ Hr) as [Hown _].
  destruct (Hown _ _ Hh) as ([st Hs] & _ & _ & Hc).
  split; [lia|]. split.
  - intros H15 new_ref d.
    apply (nativeAttachDictionary_full _ _ _ _ h); [done|lia].
  - intros Hacc H0 d address capacity rs Hd Hbuf Haddr Hlen Hall.
    destruct (attach_each_succeeds rs w ctx d address capacity h st)
      as (w' & h' & Hrun & Hh' & Hcount); try done.
    { rewrite H0, Hlen. lia. }
    exists w', h'. rewrite Hrun, Hlen. split; [done|]. split; [done|].
    rewrite Hcount, H0, Hlen. lia.
Qed.

Lemma lookup_after_deletes (l : list Z) r (m : gmap Z jreferent) :
  foldl (fun m ref => delete ref m) m l !! r =
  if decide (r ∈ l) then None else m !! r.
Proof.
  revert m. induction l as [|x l IH]; intros m.
  - rewrite decide_False; [done|]. apply not_elem_of_nil.
  - cbn [foldl]. rewrite IH.
    destruct (decide (r ∈ l)) as [Hl|Hl].
    + rewrite decide_True; [done|]. by apply list_elem_of_further.
    + destruct (decide (r = x)) as [->|Hx].
      * rewrite decide_True by apply list_elem_of_here. apply lookup_delete_eq.
      * rewrite decide_False, lookup_delete_ne; [done|done|].
        intros [?|?]%elem_of_cons; done.
Qed.

Lemma retained_is_listed ref h :
  registry_ok h -> dictionary_count h < 15 ->
  ref ∈ take (Z.to_nat (dictionary_count (retained ref h)))
             (dictionary_refs (retained ref h)).
Proof.
  intros [Hlen Hc] Hlt.
  cbn [retained dictionary_count dictionary_refs set_dictionary_count
       set_dictionary_refs].
  apply (list_elem_of_lookup_2 _ (Z.to_nat (dictionary_count h))).
  rewrite lookup_take_lt by lia. apply list_lookup_insert_eq. lia.
Qed.

Lemma nativeDestroy_live w ctx h :
  handles w !! ctx0 ctx = Some h -> dictionary_count h <= 15 ->
  is_Some (nativeDestroy w ctx).
Proof.
  intros Hh Hc. unfold nativeDestroy. rewrite Hh. cbn [mbind option_bind].
  rewrite decide_False by lia. eauto.
Qed.

(** Pushing and pulling leave the registry and the reference table alone. *)
Lemma registry_kept_while_streaming w c w' a h :
  streaming c -> exec w c = Some w' -> handles w !! a = Some h ->
  refs w' = refs w /\
  exists h', handles w' !! a = Some h' /\
    dictionary_refs h' = dictionary_refs h /\
    dictionary_count h' = dictionary_count h.
Proof.
  intros Hc Hex Ha. destruct c as [|ctx n|ctx| |]; try done; cbn [exec] in Hex.
  - destruct (nativePush w ctx n) as [[w1 c1]|] eqn:Hp; [|done].
    injection Hex as <-.
    destruct (nativePush_inv _ _ _ _ _ Hp) as
      [(-> & _)|(op & h0 & st & _ & Hh & _ & Hs & -> & _)]; [eauto|].
    split; [done|]. unfold pushed_world. cbn [handles].
    rewrite lookup_insert. case_decide as Hd; [|eauto].
    subst a. rewrite Ha in Hh. injection Hh as <-.
    destruct (pending_fields n h) as (_ & _ & E3 & E4). eauto.
  - destruct (nativePull w ctx) as [[[w1 c1] v]|] eqn:Hp; [|done].
    injection Hex as <-.
    destruct (nativePull_inv _ _ _ _ _ Hp) as (h0 & st & Hh & Hs & ->).
    split; [done|]. eauto.
Qed.

(** C10.  An attach that is past the null check and the capacity check and
    has obtained its global reference stores the reference in
    [dictionary_refs] and increments [dictionary_count] whatever happens
    next: when the buffer address does not resolve, or when the engine
    refuses the dictionary, the call returns false and the handle still
    counts one more.  Pushes and pulls keep the entry; [nativeDestroy]
    releases the reference. *)
Theorem attach_registers_before_resolving new_ref w ctx dictionary h :
  Reachable any_call w ->
  handles w !! ctx0 ctx = Some h ->
  dictionary <> 0 -> dictionary_count h < 15 -> new_ref <> 0 ->
  exists w' ok st,
    encoders w !! state h = Some st /\
    nativeAttachDictionary new_ref w ctx dictionary = Some (w', ok) /\
    handles w' !! ctx0 ctx = Some (retained new_ref h) /\
    dictionary_count (retained new_ref h) = dictionary_count h + 1 /\
    dictionary_refs (retained new_ref h) !! Z.to_nat (dictionary_count h) =
      Some new_ref /\
    is_Some (refs w' !! new_ref) /\
    ok = (if decide (GetDirectBufferAddress w dictionary = 0) then false
          else (BrotliEncoderAttachPreparedDictionary st
                  (GetDirectBufferAddress w dictionary)).1) /\
    (forall c w1, streaming c -> exec w' c = Some w1 ->
       is_Some (refs w1 !! new_ref) /\
       exists h1, handles w1 !! ctx0 ctx = Some h1 /\
         dictionary_refs h1 = dictionary_refs (retained new_ref h) /\
         dictionary_count h1 = dictionary_count h + 1) /\
    exists w'', nativeDestroy w' ctx = Some w'' /\ refs w'' !! new_ref = None.
Proof.
  intros Hr Hh Hd Hc Hn. destruct (Reachable_heap_ok _ _ Hr) as [Hown _].
  destruct (Hown _ _ Hh) as ([st Hs] & _ & Hreg).
  pose proof (nativeAttachDictionary_retained new_ref w ctx dictionary h
                Hd Hh Hc Hn) as Hrun.
  cbv zeta in Hrun. rewrite Hs in Hrun.
  assert (Hfacts : forall w' ok,
            nativeAttachDictionary new_ref w ctx dictionary = Some (w', ok) ->
            handles w' = <[ctx0 ctx := retained new_ref h]> (handles w) /\
            refs w' = <[new_ref := default OtherObject (refs w !! dictionary)]>
                        (refs w)).
  { intros w' ok H. rewrite Hrun in H. case_decide; by injection H as <- <-. }
  destruct (nativeAttachDictionary new_ref w ctx dictionary)
    as [[w' ok]|] eqn:Hp; [|by case_decide].
  destruct (Hfacts w' ok eq_refl) as [Hhs Hrs].
  assert (Hh' : handles w' !! ctx0 ctx = Some (retained new_ref h))
    by (by rewrite Hhs, lookup_insert_eq).
  assert (Hlive : is_Some (refs w' !! new_ref))
    by (rewrite Hrs, lookup_insert_eq; eauto).
  exists w', ok, st. split; [done|]. split; [done|]. split; [done|].
  split; [reflexivity|]. split.
  { cbn [retained dictionary_refs set_dictionary_count set_dictionary_refs].
    apply list_lookup_insert_eq. destruct Hreg. lia. }
  split; [done|]. split.
  { case_decide; by injection Hrun as _ ->. }
  split.
  - intros c w1 Hc1 Hex.
    destruct (registry_kept_while_streaming _ _ _ _ _ Hc1 Hex Hh')
      as (-> & h1 & Hh1 & E1 & E2).
    split; [done|]. exists h1. by rewrite E2.
  - destruct (nativeDestroy_live w' ctx (retained new_ref h) Hh') as [w'' Hdes].
    { cbn [retained dictionary_count set_dictionary_count]. lia. }
    exists w''. split; [done|].
    destruct (nativeDestroy_inv _ _ _ Hdes) as (h2 & Hh2 & _ & _ & _ & _ & ->).
    rewrite Hh' in Hh2. injection Hh2 as <-.
    rewrite lookup_after_deletes, decide_True; [done|].
    by apply retained_is_listed.
Qed.

End Properties.

(** *** The sample engine and the sample worlds *)

Lemma sample_consumes_prefix : consumes_prefix sample_engine.
Proof. intros mem st op avail next H. cbn. lia. Qed.

Lemma sample_accepts : accepts_dictionaries sample_engine.
Proof. intros st address. reflexivity. Qed.

Lemma sample_fresh : fresh sample_world sample_allocation.
Proof. repeat split; intros _; reflexivity. Qed.

Lemma sample_created_reachable D capacity :
  D sample_world (Create sample_allocation (sample_ctx 0 capacity)) ->
  Reachable D (sample_created capacity).
Proof.
  intros HD.
  apply (Reachable_call D sample_world
           (Create sample_allocation (sample_ctx 0 capacity))).
  - apply Reachable_start. reflexivity.
  - exact sample_fresh.
  - exact HD.
  - reflexivity.
Qed.

Lemma sample_pushed_reachable :
  Reachable within_capacity (sample_pushed 16 8).1.
Proof.
  apply (Reachable_call within_capacity (sample_created 16)
           (Push (sample_ctx 1000 0) 8)).
  - by apply sample_created_reachable.
  - cbn [well_formed]. unfold is_jint. lia.
  - intros h C Hh HC. vm_compute in Hh. injection Hh as <-.
    vm_compute in HC. injection HC as <-. lia.
  - vm_compute. reflexivity.
Qed.

Lemma attach_each_reachable calls :
  forall (w : World sample_engine) ctx w' oks,
    Reachable any_call w ->
    attach_each w ctx calls = Some (w', oks) ->
    Reachable any_call w'.
Proof.
  induction calls as [|[r d] calls IH]; intros w ctx w' oks Hr Hrun.
  - cbn [attach_each] in Hrun. by injection Hrun as <- _.
  - cbn [attach_each] in Hrun.
    destruct (nativeAttachDictionary r w ctx d) as [[w1 ok]|] eqn:Ha; [|done].
    destruct (attach_each w1 ctx calls) as [[w2 oks2]|] eqn:Hrest; [|done].
    injection Hrun as <- _. apply (IH w1 ctx w2 oks2); [|done].
    apply (Reachable_call any_call w (Attach r ctx d)); try done.
    cbn [exec]. by rewrite Ha.
Qed.

Lemma sample_full_reachable : Reachable any_call sample_full.
Proof.
  apply (attach_each_reachable (map (fun r => (r, 7)) sample_refs)
           (sample_created 16) (sample_ctx 1000 0) sample_full
           (replicate 15 true)).
  - by apply sample_created_reachable.
  - vm_compute. reflexivity.
Qed.

(** *** The statements at the sample worlds *)

Lemma logging_consumes_prefix : consumes_prefix logging_engine.
Proof. intros mem st op avail next H. cbn. lia. Qed.

Lemma logged_created_reachable : Reachable any_call logged_created.
Proof.
  apply (Reachable_call any_call empty_world
           (Create sample_allocation (sample_ctx 77 16))).
  - apply Reachable_start. reflexivity.
  - repeat split; intros _; reflexivity.
  - done.
  - reflexivity.
Qed.

Lemma logged_pushed_reachable tag input_length :
  is_jint input_length ->
  nativePush logged_created (stale_ctx tag) input_length =
    Some (logged_push logged_created tag input_length) ->
  Reachable any_call (logged_push logged_created tag input_length).1.
Proof.
  intros Hj Hp.
  apply (Reachable_call any_call logged_created
           (Push (stale_ctx tag) input_length)).
  - exact logged_created_reachable.
  - exact Hj.
  - done.
  - cbn [exec]. by rewrite Hp.
Qed.

(** A FLUSH push of 8 bytes: the engine is called once, with FLUSH, 8
    available bytes at the start of the scratch array (2000); it takes 4,
    so the offset is 4 of 8 and the tuple reads success, more output,
    remaining input, not finished.  A FINISH push without input on the new
    encoder reads success, no output, no remaining input, finished. *)
Lemma push_drives_one_step_witness :
  consumes_prefix logging_engine /\
  Reachable any_call logged_created /\
  is_jint 8 /\
  nativePush logged_created (stale_ctx 1) 8 =
    Some ((logged_push logged_created 1 8).1,
          (logged_push logged_created 1 8).2) /\
  ctx1 (logged_push logged_created 1 8).2 = 1 /\
  (logged_push logged_created 1 8).2 =
    {| ctx0 := 1000; ctx1 := 1; ctx2 := 1; ctx3 := 1; ctx4 := 0 |} /\
  handles (logged_push logged_created 1 8).1 !! 1000 =
    Some {| state := 3000; dictionary_refs := replicate 15 0;
            dictionary_count := 0; input_start := 2000;
            input_offset := 4; input_last := 8 |} /\
  encoders (logged_push logged_created 1 8).1 !! 3000 =
    Some {| seen := [(BROTLI_OPERATION_FLUSH, 8, 2000)];
            unread := 4; closed := false |} /\
  (logged_push logged_created 2 0).2 =
    {| ctx0 := 1000; ctx1 := 1; ctx2 := 0; ctx3 := 0; ctx4 := 1 |} /\
  encoders (logged_push logged_created 2 0).1 !! 3000 =
    Some {| seen := [(BROTLI_OPERATION_FINISH, 0, 2000)];
            unread := 0; closed := true |} /\
  encoders (logged_push (logged_push logged_created 1 8).1 0 0).1 !! 3000 =
    Some {| seen := [(BROTLI_OPERATION_PROCESS, 4, 2004);
                     (BROTLI_OPERATION_FLUSH, 8, 2000)];
            unread := 8; closed := false |} /\
  exists h',
    handles (logged_push logged_created 1 8).1 =
      <[1000 := h']> (handles logged_created) /\
    input_last h' = 8.
Proof.
  assert (Hj : is_jint 8) by (unfold is_jint; lia).
  assert (Hp : nativePush logged_created (stale_ctx 1) 8 =
               Some ((logged_push logged_created 1 8).1,
                     (logged_push logged_created 1 8).2))
    by (vm_compute; reflexivity).
  assert (Hok : ctx1 (logged_push logged_created 1 8).2 = 1)
    by (vm_compute; reflexivity).
  split; [exact logging_consumes_prefix|].
  split; [exact logged_created_reachable|].
  do 3 (split; [assumption|]).
  do 6 (split; [vm_compute; reflexivity|]).
  destruct (push_drives_one_step _ _ _ _ _ logging_consumes_prefix
              logged_created_reachable Hj Hp Hok)
    as (op & h & st & offset & limit & h' & _ & _ & _ & Hnew & _ & _ &
        _ & _ & Hhs & _ & Hlast & _).
  exists h'. split; [exact Hhs|].
  rewrite Hlast. apply Hnew; lia.
Defined.

Lemma push_over_pending_input_is_rejected_witness :
  consumes_prefix sample_engine /\
  Reachable any_call (sample_pushed 16 8).1 /\
  handles (sample_pushed 16 8).1 !! ctx0 (sample_ctx 1000 0) =
    Some (sample_handle 4 8) /\
  3 <> 0 /\ input_offset (sample_handle 4 8) <> input_last (sample_handle 4 8) /\
  nativePush (sample_pushed 16 8).1 (sample_ctx 1000 0) 3 =
    Some ((sample_pushed 16 8).1, set_ctx1 0 (sample_ctx 1000 0)).
Proof.
  assert (Hr : Reachable any_call (sample_pushed 16 8).1).
  { apply (Reachable_weaken within_capacity); [done|].
    exact sample_pushed_reachable. }
  assert (Hh : handles (sample_pushed 16 8).1 !! ctx0 (sample_ctx 1000 0) =
               Some (sample_handle 4 8)) by (vm_compute; reflexivity).
  assert (H3 : 3 <> 0) by lia.
  assert (Hne : input_offset (sample_handle 4 8) <> input_last (sample_handle 4 8))
    by (cbn; lia).
  split; [exact sample_consumes_prefix|]. do 4 (split; [assumption|]).
  apply (push_over_pending_input_is_rejected _ _ _ _
           sample_consumes_prefix Hr Hh H3 Hne).
Defined.

(** C3, as stated, fails: on a scratch buffer of 4 bytes a push that
    announces 8 bytes is accepted and leaves [input_last = 8]. *)
Lemma window_escapes_short_buffer :
  consumes_prefix sample_engine /\
  Reachable any_call (sample_pushed 4 8).1 /\
  handles (sample_pushed 4 8).1 !! 1000 = Some (sample_handle 4 8) /\
  arrays (sample_pushed 4 8).1 !! input_start (sample_handle 4 8) = Some 4 /\
  input_last (sample_handle 4 8) = 8 /\
  ~ window_in_buffer (sample_pushed 4 8).1 (sample_handle 4 8).
Proof.
  assert (HC : arrays (sample_pushed 4 8).1 !! input_start (sample_handle 4 8) =
               Some 4) by (vm_compute; reflexivity).
  split; [exact sample_consumes_prefix|]. split.
  { apply (Reachable_call any_call (sample_created 4)
             (Push (sample_ctx 1000 0) 8)).
    - by apply sample_created_reachable.
    - cbn [well_formed]. unfold is_jint. lia.
    - done.
    - vm_compute. reflexivity. }
  split; [vm_compute; reflexivity|]. split; [exact HC|].
  split; [reflexivity|].
  intros (C & HC' & _ & Hle). rewrite HC in HC'. injection HC' as <-.
  cbn in Hle. lia.
Qed.

Lemma window_stays_in_buffer_witness :
  consumes_prefix sample_engine /\
  Reachable within_capacity (sample_pushed 16 8).1 /\
  every_handle window_in_buffer (sample_pushed 16 8).1.
Proof.
  split; [exact sample_consumes_prefix|].
  split; [exact sample_pushed_reachable|].
  exact (window_stays_in_buffer _ sample_consumes_prefix sample_pushed_reachable).
Defined.

Lemma registry_holds_at_most_15_witness :
  Reachable any_call (sample_created 16) /\
  handles (sample_created 16) !! ctx0 (sample_ctx 1000 0) =
    Some (sample_handle 0 0) /\
  (exists w' h',
     attach_each (sample_created 16) (sample_ctx 1000 0)
       (map (fun r => (r, 7)) sample_refs) = Some (w', replicate 15 true) /\
     handles w' !! ctx0 (sample_ctx 1000 0) = Some h' /\
     dictionary_count h' = 15) /\
  Reachable any_call sample_full /\
  handles sample_full !! ctx0 (sample_ctx 1000 0) =
    Some (set_dictionary_count 15
            (set_dictionary_refs sample_refs (sample_handle 0 0))) /\
  nativeAttachDictionary 116 sample_full (sample_ctx 1000 0) 7 =
    Some (sample_full, false).
Proof.
  assert (Hr : Reachable any_call (sample_created 16))
    by (by apply sample_created_reachable).
  assert (Hh : handles (sample_created 16) !! ctx0 (sample_ctx 1000 0) =
               Some (sample_handle 0 0)) by (vm_compute; reflexivity).
  assert (Hh15 : handles sample_full !! ctx0 (sample_ctx 1000 0) =
                 Some (set_dictionary_count 15
                         (set_dictionary_refs sample_refs (sample_handle 0 0))))
    by (vm_compute; reflexivity).
  split; [exact Hr|]. split; [exact Hh|]. split.
  { destruct (registry_holds_at_most_15 _ _ _ Hr Hh) as (_ & _ & H15).
    apply (H15 sample_accepts eq_refl 7 500 64 sample_refs).
    - lia.
    - vm_compute. reflexivity.
    - lia.
    - reflexivity.
    - unfold sample_refs. repeat (constructor; [lia|]). constructor. }
  split; [exact sample_full_reachable|]. split; [exact Hh15|].
  destruct (registry_holds_at_most_15 _ _ _ sample_full_reachable Hh15)
    as (_ & Hfull & _).
  apply Hfull. reflexivity.
Defined.


(** Slot 0 holds 77 when the call is made; whichever allocation fails, the
    world is what it was, slot 0 holds 0 and the view is null. *)
Lemma create_is_all_or_nothing_witness :
  fresh sample_world no_engine /\
  nativeCreate no_engine sample_world (sample_ctx 77 4096) =
    (sample_world,
     {| ctx0 := 0; ctx1 := 4096; ctx2 := 5; ctx3 := 22; ctx4 := 0 |}, jnull) /\
  nativeCreate no_input sample_world (sample_ctx 77 4096) =
    (sample_world,
     {| ctx0 := 0; ctx1 := 4096; ctx2 := 5; ctx3 := 22; ctx4 := 0 |}, jnull) /\
  nativeCreate no_handle sample_world (sample_ctx 77 4096) =
    (sample_world,
     {| ctx0 := 0; ctx1 := 4096; ctx2 := 5; ctx3 := 22; ctx4 := 0 |}, jnull) /\
  ctx0 (nativeCreate sample_allocation sample_world (sample_ctx 77 4096)).1.2 =
    1000 /\
  (nativeCreate no_engine sample_world (sample_ctx 77 4096)).1.1 =
    sample_world /\
  ctx0 (nativeCreate no_engine sample_world (sample_ctx 77 4096)).1.2 = 0 /\
  (nativeCreate no_engine sample_world (sample_ctx 77 4096)).2 = jnull.
Proof.
  assert (Hf : fresh sample_world no_engine)
    by (repeat split; intros _; reflexivity).
  split; [exact Hf|].
  do 4 (split; [vm_compute; reflexivity|]).
  pose proof (create_is_all_or_nothing no_engine sample_world
                (sample_ctx 77 4096) Hf) as H.
  destruct (nativeCreate no_engine sample_world (sample_ctx 77 4096))
    as [[w' ctx'] view].
  destruct H as (Hfail & _).
  apply Hfail. right. right. reflexivity.
Defined.

(** After the FLUSH push of 8 bytes (4 taken by the engine) a pull hands
    out 3 bytes at 7000 and reads success, more output, remaining input, not
    finished, whatever the slots held; after a FINISH push without input it
    hands out nothing and reads success, no output, no remaining input,
    finished. *)
Lemma pull_always_succeeds_witness :
  Reachable any_call (logged_push logged_created 1 8).1 /\
  handles (logged_push logged_created 1 8).1 !! ctx0 (stale_ctx 9) =
    Some {| state := 3000; dictionary_refs := replicate 15 0;
            dictionary_count := 0; input_start := 2000;
            input_offset := 4; input_last := 8 |} /\
  nativePull (logged_push logged_created 1 8).1 (stale_ctx 9) =
    Some (logged_pull (logged_push logged_created 1 8).1) /\
  (logged_pull (logged_push logged_created 1 8).1).1.2 =
    {| ctx0 := 1000; ctx1 := 1; ctx2 := 1; ctx3 := 1; ctx4 := 0 |} /\
  (logged_pull (logged_push logged_created 1 8).1).2 =
    NewDirectByteBuffer 7000 3 /\
  (logged_pull (logged_push logged_created 2 0).1).1.2 =
    {| ctx0 := 1000; ctx1 := 1; ctx2 := 0; ctx3 := 0; ctx4 := 1 |} /\
  (logged_pull (logged_push logged_created 2 0).1).2 =
    NewDirectByteBuffer 7000 0 /\
  exists st, encoders (logged_push logged_created 1 8).1 !! 3000 = Some st /\
    let '(data, data_length, st') := BrotliEncoderTakeOutput st in
    exists w' ctx',
      nativePull (logged_push logged_created 1 8).1 (stale_ctx 9) =
        Some (w', ctx', NewDirectByteBuffer data (to_jlong data_length)) /\
      ctx1 ctx' = 1 /\ ctx3 ctx' = 1.
Proof.
  assert (Hj : is_jint 8) by (unfold is_jint; lia).
  assert (Hr : Reachable any_call (logged_push logged_created 1 8).1).
  { apply logged_pushed_reachable; [exact Hj|]. vm_compute. reflexivity. }
  assert (Hh : handles (logged_push logged_created 1 8).1 !! ctx0 (stale_ctx 9) =
               Some {| state := 3000; dictionary_refs := replicate 15 0;
                       dictionary_count := 0; input_start := 2000;
                       input_offset := 4; input_last := 8 |})
    by (vm_compute; reflexivity).
  split; [exact Hr|]. split; [exact Hh|].
  do 5 (split; [vm_compute; reflexivity|]).
  destruct (pull_always_succeeds _ _ _ Hr Hh) as (st & Hs & Hpull).
  exists st. split; [exact Hs|].
  destruct (BrotliEncoderTakeOutput st) as [[data len] st'].
  destruct Hpull as (w' & ctx' & Hp & _ & H1 & _ & H3 & _).
  exists w', ctx'. split; [exact Hp|]. split; [exact H1|].
  rewrite H3. reflexivity.
Defined.

Lemma prepare_dictionary_bounds_witness :
  nativePrepareDictionary sample_world 0 0 = jnull /\
  nativePrepareDictionary sample_world 8 0 = jnull /\
  nativePrepareDictionary sample_world 7 0 = NewDirectByteBuffer 575 4.
Proof.
  split; [|split].
  - destruct (prepare_dictionary_bounds sample_world 0 0) as (Hnull & _).
    by apply Hnull.
  - destruct (prepare_dictionary_bounds sample_world 8 0) as (_ & Hcap & _).
    apply Hcap. left. vm_compute. discriminate.
  - destruct (prepare_dictionary_bounds sample_world 7 0) as (_ & _ & Hrun & _).
    rewrite Hrun; [reflexivity|lia|vm_compute; discriminate|].
    vm_compute. split; [discriminate|reflexivity].
Defined.

Lemma push_unknown_operation_fails_witness :
  to_int (ctx1 (sample_ctx 1000 3)) <> 0 /\
  to_int (ctx1 (sample_ctx 1000 3)) <> 1 /\
  to_int (ctx1 (sample_ctx 1000 3)) <> 2 /\
  nativePush (sample_created 16) (sample_ctx 1000 3) 8 =
    Some (sample_created 16, sample_ctx 1000 0).
Proof.
  assert (H0 : to_int (ctx1 (sample_ctx 1000 3)) <> 0) by (vm_compute; discriminate).
  assert (H1 : to_int (ctx1 (sample_ctx 1000 3)) <> 1) by (vm_compute; discriminate).
  assert (H2 : to_int (ctx1 (sample_ctx 1000 3)) <> 2) by (vm_compute; discriminate).
  do 3 (split; [assumption|]).
  apply (push_unknown_operation_fails (sample_created 16) (sample_ctx 1000 3) 8
           H0 H1 H2).
Defined.

Lemma attach_registers_before_resolving_witness :
  Reachable any_call (sample_created 16) /\
  handles (sample_created 16) !! ctx0 (sample_ctx 1000 0) =
    Some (sample_handle 0 0) /\
  8 <> 0 /\ dictionary_count (sample_handle 0 0) < 15 /\ 101 <> 0 /\
  exists w',
    nativeAttachDictionary 101 (sample_created 16) (sample_ctx 1000 0) 8 =
      Some (w', false) /\
    handles w' !! ctx0 (sample_ctx 1000 0) =
      Some (retained 101 (sample_handle 0 0)) /\
    dictionary_count (retained 101 (sample_handle 0 0)) = 1.
Proof.
  assert (Hr : Reachable any_call (sample_created 16))
    by (by apply sample_created_reachable).
  assert (Hh : handles (sample_created 16) !! ctx0 (sample_ctx 1000 0) =
               Some (sample_handle 0 0)) by (vm_compute; reflexivity).
  assert (H8 : 8 <> 0) by lia.
  assert (Hc : dictionary_count (sample_handle 0 0) < 15) by (cbn; lia).
  assert (H101 : 101 <> 0) by lia.
  do 5 (split; [assumption|]).
  destruct (attach_registers_before_resolving 101 _ _ 8 _ Hr Hh H8 Hc H101)
    as (w' & ok & st & _ & Hrun & Hh' & _ & _ & _ & Hok & _).
  assert (Ha : GetDirectBufferAddress (sample_created 16) 8 = 0)
    by (vm_compute; reflexivity).
  exists w'. rewrite Hrun, Hok, decide_True by exact Ha.
  split; [reflexivity|]. split; [exact Hh'|reflexivity].
Defined.

(** ** Further properties of the bridge *)

Section Coverage.
Context {E : BrotliEngine}.
Implicit Types (w : World E) (h : EncoderHandle) (ctx : JContext).

Lemma world_ext w w' :
  handles w = handles w' -> arrays w = arrays w' ->
  encoders w = encoders w' -> refs w = refs w' -> memory w = memory w' ->
  w = w'.
Proof. destruct w, w'. cbn. by intros -> -> -> -> ->. Qed.

(** X3.  Whatever lengths the pushes announce, [input_offset] never passes
    [input_last], and both stay within [size_t], as long as the engine
    consumes a prefix of what it is offered. *)
Theorem window_never_inverts w a h :
  consumes_prefix E -> Reachable any_call w ->
  handles w !! a = Some h ->
  0 <= input_offset h <= input_last h /\ input_last h < 2 ^ 64.
Proof. intros Hc Hr Hh. exact (Reachable_ordered _ _ Hc Hr _ _ Hh). Qed.

(** X4.  In every reachable world a live handle owns a live engine and a
    live scratch array, its registry has 15 slots of which at most 15 are
    counted, and no two live handles share an engine or a scratch array. *)
Theorem live_handles_own_engine_and_buffer w a a' h h' :
  Reachable any_call w ->
  handles w !! a = Some h -> handles w !! a' = Some h' ->
  is_Some (encoders w !! state h) /\
  is_Some (arrays w !! input_start h) /\
  length (dictionary_refs h) = 15%nat /\
  0 <= dictionary_count h <= 15 /\
  (state h = state h' \/ input_start h = input_start h' -> a = a').
Proof.
  intros Hr Hh Hh'. destruct (Reachable_heap_ok _ _ Hr) as [Hown Hinj].
  destruct (Hown _ _ Hh) as (He & Ha & Hl & Hc).
  repeat split; try done; try lia. apply (Hinj a a' h h' Hh Hh').
Qed.

(** X5.  The pull that follows a successful push reports the same
    hasRemainingInput as the push did, and so does the pull after it: pulls
    return, and they leave every handle as it is. *)
Theorem pull_repeats_remaining_input w ctx input_length w1 c1 :
  nativePush w ctx input_length = Some (w1, c1) -> ctx1 c1 = 1 ->
  exists w2 c2 v2 w3 c3 v3,
    nativePull w1 c1 = Some (w2, c2, v2) /\
    nativePull w2 c2 = Some (w3, c3, v3) /\
    ctx1 c2 = 1 /\ ctx1 c3 = 1 /\
    ctx3 c2 = ctx3 c1 /\ ctx3 c3 = ctx3 c1 /\
    handles w2 = handles w1 /\ handles w3 = handles w1.
Proof.
  intros Hp Hok.
  destruct (nativePush_inv _ _ _ _ _ Hp) as
    [(_ & -> & _)|(op & h & st & Ho & Hh & Hd & Hs & Hw & Hctx)]; [done|].
  cbv zeta in Hw, Hctx.
  destruct (BrotliEncoderCompressStream _ _ _ _ _) as [[status rest] st'].
  cbn [fst snd] in Hw, Hctx. destruct status; [|by subst c1].
  set (h2 := pushed_handle rest (pending input_length h)) in *.
  assert (Hst : state h2 = state (pending input_length h)) by reflexivity.
  assert (Hh1 : handles w1 !! ctx0 c1 = Some h2).
  { subst w1 c1. cbn [ctx0 status_tuple handles pushed_world].
    apply lookup_insert_eq. }
  assert (Hs1 : encoders w1 !! state h2 = Some st').
  { subst w1. cbn [encoders pushed_world]. rewrite Hst. apply lookup_insert_eq. }
  pose proof (nativePull_live w1 c1 h2 st' Hh1 Hs1) as Hpull.
  destruct (BrotliEncoderTakeOutput st') as [[data len] st2] eqn:Htake.
  set (w2 := set_encoders (<[state h2 := st2]>) w1) in *.
  set (c2 := status_tuple (ctx0 c1) st2 h2) in *.
  assert (Hh2 : handles w2 !! ctx0 c2 = Some h2) by exact Hh1.
  assert (Hs2 : encoders w2 !! state h2 = Some st2).
  { subst w2. cbn [encoders set_encoders]. apply lookup_insert_eq. }
  pose proof (nativePull_live w2 c2 h2 st2 Hh2 Hs2) as Hpull2.
  destruct (BrotliEncoderTakeOutput st2) as [[data2 len2] st3].
  eexists w2, c2, _, _, _, _. split; [exact Hpull|]. split; [exact Hpull2|].
  subst c1. repeat split.
Qed.

(** X6.  A push without new input on a drained window offers the engine
    zero bytes, leaves every handle as it is, and on success reports
    hasRemainingInput = 0. *)
Theorem idle_push_offers_nothing w ctx h st op :
  consumes_prefix E -> Reachable any_call w ->
  operation_of_int (to_int (ctx1 ctx)) = Some op ->
  handles w !! ctx0 ctx = Some h ->
  encoders w !! state h = Some st ->
  input_offset h = input_last h ->
  let r := BrotliEncoderCompressStream (memory w) st op 0
             (input_start h + input_offset h) in
  exists w' c',
    nativePush w ctx 0 = Some (w', c') /\
    handles w' = handles w /\
    encoders w' = <[state h := r.2]> (encoders w) /\
    c' = if r.1.1
         then {| ctx0 := ctx0 ctx; ctx1 := 1;
                 ctx2 := Z_of_bool (BrotliEncoderHasMoreOutput r.2);
                 ctx3 := 0;
                 ctx4 := Z_of_bool (BrotliEncoderIsFinished r.2) |}
         else set_ctx1 0 ctx.
Proof.
  intros Hc Hr Ho Hh Hs Heq r.
  pose proof (Reachable_ordered _ _ Hc Hr _ _ Hh) as [Hord Hlt].
  assert (Ha : accept_input 0 h = Some h) by reflexivity.
  rewrite (nativePush_accepted w ctx 0 op h h st Ho Hh Ha Hs).
  assert (Hz : to_size_t (input_last h - input_offset h) = 0).
  { rewrite Heq, Z.sub_diag. reflexivity. }
  rewrite Hz. fold r.
  assert (Hrest : r.1.2 = 0).
  { pose proof (Hc (memory w) st op 0 (input_start h + input_offset h)) as H0.
    fold r in H0. lia. }
  destruct r as [[status rest] st'] eqn:Hr'. cbn [fst snd] in *. subst rest.
  assert (Hsame : pushed_handle 0 h = h).
  { unfold pushed_handle. rewrite Z.sub_0_r, to_size_t_small by lia.
    rewrite <- Heq. by destruct h. }
  eexists _, _. split; [reflexivity|].
  unfold pushed_world. cbn [handles encoders]. rewrite Hsame.
  split; [by apply insert_id|]. split; [done|].
  destruct status; [|done]. unfold status_tuple.
  by rewrite bool_decide_eq_false_2 by (intros Hne; by apply Hne).
Qed.

(** X7.  When the engine's streaming call reports an error the push clears
    the success flag (slot 1 reads 0) and refreshes no other slot of the
    tuple, yet the handle keeps the offset the engine left and the engine
    keeps its new state: nothing is rolled back. *)
Theorem failed_compress_is_not_rolled_back w ctx input_length op h st :
  operation_of_int (to_int (ctx1 ctx)) = Some op ->
  handles w !! ctx0 ctx = Some h ->
  (input_length <> 0 -> ~ input_offset h < input_last h) ->
  encoders w !! state h = Some st ->
  let h1 := pending input_length h in
  let r := BrotliEncoderCompressStream (memory w) st op
             (to_size_t (input_last h1 - input_offset h1))
             (input_start h1 + input_offset h1) in
  r.1.1 = false ->
  exists w',
    nativePush w ctx input_length = Some (w', set_ctx1 0 ctx) /\
    handles w' !! ctx0 ctx =
      Some (set_input_offset (to_size_t (input_last h1 - r.1.2)) h1) /\
    encoders w' !! state h = Some r.2 /\
    arrays w' = arrays w /\ refs w' = refs w /\
    ctx1 (set_ctx1 0 ctx) = 0 /\
    ctx0 (set_ctx1 0 ctx) = ctx0 ctx /\ ctx2 (set_ctx1 0 ctx) = ctx2 ctx /\
    ctx3 (set_ctx1 0 ctx) = ctx3 ctx /\ ctx4 (set_ctx1 0 ctx) = ctx4 ctx.
Proof.
  intros Ho Hh Hd Hs h1 r Hfail.
  assert (Ha : accept_input input_length h = Some h1)
    by (by apply accept_input_Some).
  destruct (pending_fields input_length h) as (E1 & _).
  fold h1 in E1.
  assert (Hs1 : encoders w !! state h1 = Some st) by (by rewrite E1).
  rewrite (nativePush_accepted w ctx input_length op h h1 st Ho Hh Ha Hs1).
  fold r. destruct r as [[status rest] st']. cbn [fst snd] in *. subst status.
  eexists. split; [reflexivity|].
  unfold pushed_world. cbn [handles encoders arrays refs].
  rewrite E1, !lookup_insert_eq. done.
Qed.

(** X8.  The engine of a new encoder is the fresh instance with quality,
    window bits and mode set in this order, each only when the [int] read
    from its slot is not negative: with three negative values the engine
    keeps its defaults, with three non-negative ones it is set three times. *)
Theorem create_applies_only_nonnegative_parameters al w ctx :
  new_EncoderHandle al <> 0 -> to_size_t (ctx1 ctx) <> 0 ->
  new_input al <> 0 -> BrotliEncoderCreateInstance al <> 0 ->
  let engine := encoders (nativeCreate al w ctx).1.1
                  !! BrotliEncoderCreateInstance al in
  let q := to_int (ctx2 ctx) in
  let l := to_int (ctx3 ctx) in
  let m := to_int (ctx4 ctx) in
  engine =
    Some (configure BROTLI_PARAM_MODE m
            (configure BROTLI_PARAM_LGWIN l
               (configure BROTLI_PARAM_QUALITY q BrotliEncoderInitialState))) /\
  (q < 0 -> l < 0 -> m < 0 -> engine = Some BrotliEncoderInitialState) /\
  (0 <= q -> 0 <= l -> 0 <= m ->
   engine =
     Some (BrotliEncoderSetParameter
             (BrotliEncoderSetParameter
                (BrotliEncoderSetParameter BrotliEncoderInitialState
                   BROTLI_PARAM_QUALITY q)
                BROTLI_PARAM_LGWIN l)
             BROTLI_PARAM_MODE m)).
Proof.
  intros Hh Hn Hp Hs engine q l m.
  assert (He : engine =
    Some (configure BROTLI_PARAM_MODE m
            (configure BROTLI_PARAM_LGWIN l
               (configure BROTLI_PARAM_QUALITY q BrotliEncoderInitialState)))).
  { subst engine. rewrite nativeCreate_success by done.
    cbn [fst encoders created_world]. apply lookup_insert_eq. }
  split; [exact He|]. rewrite He. unfold configure. split.
  - intros Hq Hl Hm. by rewrite !decide_False by lia.
  - intros Hq Hl Hm. by rewrite !decide_True by lia.
Qed.

(** X9.  After [nativeDestroy] the cookie addresses nothing: a second
    destroy, a pull, a push with a valid operation and an attach of a
    non-null dictionary all dereference the freed handle (undefined), while
    a push with an unknown operation still returns without touching it. *)
Theorem destroyed_handle_is_dead w ctx w' :
  nativeDestroy w ctx = Some w' ->
  handles w' !! ctx0 ctx = None /\
  nativeDestroy w' ctx = None /\
  nativePull w' ctx = None /\
  (forall cx n, ctx0 cx = ctx0 ctx ->
     is_Some (operation_of_int (to_int (ctx1 cx))) ->
     nativePush w' cx n = None) /\
  (forall cx n, ctx0 cx = ctx0 ctx ->
     operation_of_int (to_int (ctx1 cx)) = None ->
     nativePush w' cx n = Some (w', set_ctx1 0 cx)) /\
  (forall r cx d, ctx0 cx = ctx0 ctx -> d <> 0 ->
     nativeAttachDictionary r w' cx d = None).
Proof.
  intros Hd. destruct (nativeDestroy_inv _ _ _ Hd) as (h & _ & _ & Hhs & _).
  assert (Hgone : handles w' !! ctx0 ctx = None)
    by (rewrite Hhs; apply lookup_delete_eq).
  split; [exact Hgone|]. split.
  { unfold nativeDestroy. by rewrite Hgone. }
  split.
  { unfold nativePull. by rewrite Hgone. }
  split.
  { intros cx n Hcx [op Ho]. unfold nativePush. by rewrite Ho, Hcx, Hgone. }
  split.
  { intros cx n _ Ho. by apply nativePush_bad_operation. }
  intros r cx d Hcx Hd0. unfold nativeAttachDictionary.
  rewrite (bool_decide_eq_false_2 (d = 0)) by done.
  cbn [andb]. by rewrite Hcx, Hgone.
Qed.

(** X11.  What [nativePrepareDictionary] returns is a 4-byte buffer over
    the pointer the engine's prepare gave; when a reference to that buffer
    is attached to a handle with a free slot, the engine's attach receives
    exactly this pointer, and its answer is the result of the call. *)
Theorem attach_passes_prepared_pointer
    w dictionary type p c w1 new_ref cx d' h st :
  nativePrepareDictionary w dictionary type = NewDirectByteBuffer p c ->
  refs w1 !! d' = Some (DirectBuffer p c) -> d' <> 0 ->
  handles w1 !! ctx0 cx = Some h -> dictionary_count h < 15 ->
  new_ref <> 0 -> encoders w1 !! state h = Some st ->
  c = 4 /\ p <> 0 /\
  p = BrotliEncoderPrepareDictionary (memory w) (to_int type)
        (GetDirectBufferCapacity w dictionary)
        (GetDirectBufferAddress w dictionary) BROTLI_MAX_QUALITY /\
  exists w2,
    nativeAttachDictionary new_ref w1 cx d' =
      Some (w2, (BrotliEncoderAttachPreparedDictionary st p).1) /\
    encoders w2 !! state h =
      Some (BrotliEncoderAttachPreparedDictionary st p).2.
Proof.
  intros Hprep Hbuf Hd' Hh Hc Hr Hs.
  assert (Hshift : Z.shiftl 1 30 = 2 ^ 30) by reflexivity.
  unfold nativePrepareDictionary in Hprep. rewrite Hshift in Hprep.
  repeat case_decide; try done.
  rewrite to_size_t_small in * by lia. injection Hprep as Hp Hc4.
  assert (Hp0 : p <> 0) by congruence.
  split; [done|]. split; [done|]. split; [done|].
  rewrite (nativeAttachDictionary_retained new_ref w1 cx d' h) by done.
  cbv zeta. rewrite (GetDirectBufferAddress_buffer _ _ _ _ Hbuf).
  rewrite decide_False by done. rewrite Hs.
  eexists. split; [reflexivity|].
  cbn [encoders set_encoders retained_world]. apply lookup_insert_eq.
Qed.

(** X12.  [nativeDestroyDictionary] does nothing for a null reference and
    for a reference whose buffer address does not resolve.  Given the buffer
    a successful prepare returned it releases exactly the prepared
    dictionary; given the same buffer once more it frees what is no longer
    allocated. *)
Theorem destroy_dictionary_releases_prepared w dictionary type p c w1 live d' :
  nativePrepareDictionary w dictionary type = NewDirectByteBuffer p c ->
  p ∉ live ->
  refs w1 !! d' = Some (DirectBuffer p c) -> d' <> 0 ->
  nativeDestroyDictionary w1 (prepared (NewDirectByteBuffer p c) live) d' =
    Some live /\
  nativeDestroyDictionary w1 live d' = None /\
  nativeDestroyDictionary w1 live 0 = Some live /\
  (forall d, GetDirectBufferAddress w1 d = 0 ->
     nativeDestroyDictionary w1 live d = Some live).
Proof.
  intros Hprep Hfresh Hbuf Hd'.
  assert (Hp : p <> 0).
  { unfold nativePrepareDictionary in Hprep.
    repeat case_decide; try done. by injection Hprep as <- <-. }
  unfold nativeDestroyDictionary, BrotliEncoderDestroyPreparedDictionary, prepared.
  rewrite (GetDirectBufferAddress_buffer _ _ _ _ Hbuf).
  rewrite !(decide_False (P := d' = 0)), !(decide_False (P := p = 0)) by done.
  split.
  { rewrite decide_True
      by (apply elem_of_union; left; by apply elem_of_singleton).
    f_equal. apply set_eq. intros x.
    rewrite elem_of_difference, elem_of_union, elem_of_singleton.
    split; [by intros [[->|?] ?]|]. intros Hx. split; [by right|].
    by intros ->. }
  split; [by rewrite decide_False|]. split; [done|].
  intros d Hd. case_decide; [done|]. by rewrite Hd, decide_True.
Qed.

(** X2.  A call leaves every live handle other than the one it is given as
    it is, together with that handle's engine and scratch array; creating a
    handle leaves all existing ones so. *)
Theorem other_handles_untouched w c w' a' h' :
  Reachable any_call w -> well_formed w c -> exec w c = Some w' ->
  handles w !! a' = Some h' -> cookie_of c <> Some a' ->
  handles w' !! a' = Some h' /\
  encoders w' !! state h' = encoders w !! state h' /\
  arrays w' !! input_start h' = arrays w !! input_start h'.
Proof.
  intros Hr Hwf Hex Hh' Hne.
  destruct (Reachable_heap_ok _ _ Hr) as [Hown Hinj].
  destruct (Hown _ _ Hh') as ([st' Hst'] & [C' HC'] & _).
  assert (Hother : forall a h, handles w !! a = Some h -> a <> a' ->
            state h <> state h' /\ input_start h <> input_start h').
  { intros a h Hh Ha. split; intros Heq; apply Ha;
      apply (Hinj a a' h h' Hh Hh'); auto. }
  destruct c as [al ctx|ctx n|ctx|r ctx d|ctx]; cbn [exec cookie_of] in *.
  - injection Hex as <-.
    destruct (nativeCreate_cases al w ctx Hwf) as [->|(Ha & _ & Hp & Hs & ->)];
      cbn [fst]; [done|].
    destruct Hwf as (Fh & Fp & Fs).
    specialize (Fh Ha). specialize (Fp Hp). specialize (Fs Hs).
    unfold created_world. cbn [handles encoders arrays].
    rewrite !lookup_insert_ne; [done|congruence|congruence|congruence].
  - destruct (nativePush w ctx n) as [[w1 c1]|] eqn:Hp; [|done].
    injection Hex as <-.
    destruct (nativePush_inv _ _ _ _ _ Hp) as
      [(-> & _)|(op & h & st & _ & Hh & _ & Hs & -> & _)]; [done|].
    assert (Ha : ctx0 ctx <> a') by congruence.
    destruct (Hother _ _ Hh Ha) as [N1 N2].
    destruct (pending_fields n h) as (E1 & _).
    unfold pushed_world. cbn [handles encoders arrays].
    rewrite !lookup_insert_ne; [done|by rewrite E1|done].
  - destruct (nativePull w ctx) as [[[w1 c1] v]|] eqn:Hp; [|done].
    injection Hex as <-.
    destruct (nativePull_inv _ _ _ _ _ Hp) as (h & st & Hh & Hs & ->).
    assert (Ha : ctx0 ctx <> a') by congruence.
    destruct (Hother _ _ Hh Ha) as [N1 N2].
    cbn [handles encoders arrays set_encoders].
    by rewrite lookup_insert_ne.
  - destruct (nativeAttachDictionary r w ctx d) as [[w1 ok]|] eqn:Hp; [|done].
    injection Hex as <-.
    destruct (nativeAttachDictionary_inv _ _ _ _ _ _ Hp) as
      [(-> & _)|(h & Hh & _ & _ & _ & Hhs & Har & _ & Hen)]; [done|].
    assert (Ha : ctx0 ctx <> a') by congruence.
    destruct (Hother _ _ Hh Ha) as [N1 N2].
    rewrite Hhs, Har, lookup_insert_ne by done.
    split; [done|]. split; [|done].
    destruct Hen as [(-> & _)|(st & _ & _ & -> & _)]; [done|].
    by rewrite lookup_insert_ne.
  - destruct (nativeDestroy_inv _ _ _ Hex) as (h & Hh & _ & -> & -> & -> & _).
    assert (Ha : ctx0 ctx <> a') by congruence.
    destruct (Hother _ _ Hh Ha) as [N1 N2].
    by rewrite !lookup_delete_ne.
Qed.

(** *** The registry in attachment order *)

Lemma held_refs_retained ref h :
  registry_ok h -> dictionary_count h < 15 ->
  held_refs (retained ref h) = held_refs h ++ [ref].
Proof.
  intros [Hlen Hc] Hlt. unfold held_refs.
  cbn [retained dictionary_count dictionary_refs set_dictionary_count
       set_dictionary_refs].
  replace (Z.to_nat (dictionary_count h + 1))
    with (S (Z.to_nat (dictionary_count h))) by lia.
  rewrite (take_S_r _ _ ref) by (apply list_lookup_insert_eq; lia).
  by rewrite take_insert_ge by lia.
Qed.

Lemma length_held_refs h :
  registry_ok h -> Z.of_nat (length (held_refs h)) = dictionary_count h.
Proof.
  intros [Hlen Hc]. unfold held_refs. rewrite length_take_le by lia. lia.
Qed.

Lemma nativeAttachDictionary_handles new_ref w ctx dictionary h w' ok :
  handles w !! ctx0 ctx = Some h ->
  dictionary <> 0 -> dictionary_count h < 15 -> new_ref <> 0 ->
  nativeAttachDictionary new_ref w ctx dictionary = Some (w', ok) ->
  handles w' = <[ctx0 ctx := retained new_ref h]> (handles w) /\
  arrays w' = arrays w /\ memory w' = memory w /\
  refs w' = <[new_ref := default OtherObject (refs w !! dictionary)]> (refs w) /\
  (encoders w' = encoders w \/
   exists st', encoders w' = <[state h := st']> (encoders w)).
Proof.
  intros Hh Hd Hc Hr Hrun.
  rewrite (nativeAttachDictionary_retained new_ref w ctx dictionary h) in Hrun
    by done.
  cbv zeta in Hrun. case_decide.
  - injection Hrun as <- <-. repeat split; auto.
  - destruct (encoders w !! state h) as [st|]; [|done].
    injection Hrun as <- <-. repeat split; eauto.
Qed.

Lemma nativeAttachDictionary_refused new_ref w ctx dictionary h :
  handles w !! ctx0 ctx = Some h ->
  dictionary = 0 \/ 15 <= dictionary_count h \/ new_ref = 0 ->
  nativeAttachDictionary new_ref w ctx dictionary = Some (w, false).
Proof.
  intros Hh [->|[Hc| ->]].
  - apply nativeAttachDictionary_null.
  - by apply (nativeAttachDictionary_full _ _ _ _ h).
  - by apply (nativeAttachDictionary_no_ref _ _ _ h).
Qed.

Lemma attach_each_registers (calls : list (Z * Z)) :
  forall w ctx h w' oks,
    handles w !! ctx0 ctx = Some h -> registry_ok h ->
    attach_each w ctx calls = Some (w', oks) ->
    exists h', handles w' !! ctx0 ctx = Some h' /\ registry_ok h' /\
      held_refs h' = take 15 (held_refs h ++ registrations calls).
Proof.
  induction calls as [|[r d] calls IH]; intros w ctx h w' oks Hh Hreg Hrun.
  - cbn [attach_each] in Hrun. injection Hrun as <- _. exists h.
    split; [done|]. split; [done|].
    unfold registrations. rewrite filter_nil. cbn [fmap list_fmap].
    rewrite app_nil_r, take_ge; [done|].
    pose proof (length_held_refs h Hreg). destruct Hreg. lia.
  - cbn [attach_each] in Hrun.
    destruct (nativeAttachDictionary r w ctx d) as [[w1 ok]|] eqn:Ha; [|done].
    destruct (attach_each w1 ctx calls) as [[w2 oks2]|] eqn:Hrest; [|done].
    injection Hrun as <- _.
    destruct (decide (d = 0 \/ 15 <= dictionary_count h \/ r = 0)) as [Hno|Hyes].
    + rewrite (nativeAttachDictionary_refused r w ctx d h Hh Hno) in Ha.
      injection Ha as <- _.
      destruct (IH w ctx h w2 oks2 Hh Hreg Hrest) as (h' & Hh' & Hreg' & Hheld).
      exists h'. split; [done|]. split; [done|]. rewrite Hheld.
      destruct (decide (r <> 0 /\ d <> 0)) as [Hpass|Hfail].
      * assert (Hfull : dictionary_count h = 15)
          by (destruct Hreg; lia).
        pose proof (length_held_refs h Hreg) as Hlen.
        rewrite !take_app_le by lia. done.
      * unfold registrations. by rewrite filter_cons_False.
    + assert (Hd : d <> 0) by tauto. assert (Hr : r <> 0) by tauto.
      assert (Hc : dictionary_count h < 15) by lia.
      destruct (nativeAttachDictionary_handles r w ctx d h w1 ok Hh Hd Hc Hr Ha)
        as (Hhs & _).
      assert (Hh1 : handles w1 !! ctx0 ctx = Some (retained r h))
        by (rewrite Hhs; apply lookup_insert_eq).
      destruct (IH w1 ctx (retained r h) w2 oks2 Hh1
                  (registry_ok_retained r h Hreg Hc) Hrest)
        as (h' & Hh' & Hreg' & Hheld).
      exists h'. split; [done|]. split; [done|]. rewrite Hheld.
      rewrite held_refs_retained by done.
      unfold registrations. rewrite filter_cons_True by done.
      cbn [fmap list_fmap fst]. by rewrite <- app_assoc.
Qed.

(** X10.  After any list of attaches on a handle that held nothing, the
    counted slots of [dictionary_refs] hold, in call order, the references
    [NewGlobalRef] answered for the non-null dictionaries (the non-null
    answers), up to the first 15; the later ones are not registered. *)
Theorem registry_lists_references_in_attachment_order
    w ctx h (calls : list (Z * Z)) w' oks :
  Reachable any_call w ->
  handles w !! ctx0 ctx = Some h -> dictionary_count h = 0 ->
  attach_each w ctx calls = Some (w', oks) ->
  exists h', handles w' !! ctx0 ctx = Some h' /\
    held_refs h' = take 15 (registrations calls) /\
    dictionary_count h' = Z.of_nat (length (take 15 (registrations calls))).
Proof.
  intros Hr Hh H0 Hrun. destruct (Reachable_heap_ok _ _ Hr) as [Hown _].
  destruct (Hown _ _ Hh) as (_ & _ & Hreg).
  destruct (attach_each_registers calls w ctx h w' oks Hh Hreg Hrun)
    as (h' & Hh' & Hreg' & Hheld).
  assert (Hnone : held_refs h = []) by (unfold held_refs; by rewrite H0).
  rewrite Hnone in Hheld. cbn [app] in Hheld.
  exists h'. split; [done|]. split; [done|].
  by rewrite <- Hheld, length_held_refs.
Qed.

(** *** A whole session *)

Lemma DeleteGlobalRef_memory w (l : list Z) :
  memory (foldl (fun w ref => DeleteGlobalRef ref w) w l) = memory w.
Proof.
  revert w. induction l as [|r l IH]; intros w; [done|].
  cbn [foldl]. by rewrite IH.
Qed.

Lemma nativeDestroy_memory w ctx w' :
  nativeDestroy w ctx = Some w' -> memory w' = memory w.
Proof.
  unfold nativeDestroy. intros H.
  destruct (handles w !! ctx0 ctx) as [h|]; [|done].
  cbn [mbind option_bind] in H. case_decide; [done|]. injection H as <-.
  cbn [memory set_handles set_arrays]. by rewrite DeleteGlobalRef_memory.
Qed.

Lemma held_refs_pushed rest n h :
  held_refs (pushed_handle rest (pending n h)) = held_refs h.
Proof.
  destruct (pending_fields n h) as (_ & _ & E3 & E4).
  unfold held_refs, pushed_handle.
  cbn [dictionary_count dictionary_refs set_input_offset]. by rewrite E3, E4.
Qed.

Lemma session_state_intro a p s w0 w h C st :
  handles w = <[a := h]> (handles w0) ->
  arrays w = <[p := C]> (arrays w0) ->
  encoders w = <[s := st]> (encoders w0) ->
  memory w = memory w0 ->
  state h = s -> input_start h = p -> registry_ok h ->
  (forall k, k ∈ held_refs h -> refs w0 !! k = None) ->
  (forall k, k ∉ held_refs h -> refs w !! k = refs w0 !! k) ->
  session_state a p s w0 w.
Proof. intros. exists h, C, st. repeat (split; [assumption|]). assumption. Qed.

Lemma session_state_created al w ctx :
  session_state (new_EncoderHandle al) (new_input al)
    (BrotliEncoderCreateInstance al) w (created_world al w ctx).
Proof.
  apply (session_state_intro _ _ _ _ _ (created_handle al)
           (to_size_t (ctx1 ctx)) (configured ctx)); try done.
  intros k Hk. by apply elem_of_nil in Hk.
Qed.

Lemma session_step a p s w0 w c w' :
  session_state a p s w0 w -> in_session a c ->
  (forall r, r ∈ new_refs [c] -> refs w0 !! r = None) ->
  exec w c = Some w' -> session_state a p s w0 w'.
Proof.
  intros (h & C & st & Hhs & Har & Hen & Hmem & Hst & Hin & Hreg & Hold & Hnew)
         Hc Hfresh Hex.
  assert (Hh : handles w !! a = Some h) by (rewrite Hhs; apply lookup_insert_eq).
  destruct c as [|ctx n|ctx|r ctx d|]; try done; cbn [in_session exec] in *;
    subst a.
  - destruct (nativePush w ctx n) as [[w1 c1]|] eqn:Hp; [|done].
    injection Hex as <-.
    destruct (nativePush_inv _ _ _ _ _ Hp) as
      [(-> & _)|(op & h0 & st0 & _ & Hh0 & _ & Hs0 & -> & _)].
    { by apply (session_state_intro _ _ _ _ _ h C st). }
    rewrite Hh in Hh0. injection Hh0 as <-.
    destruct (pending_fields n h) as (E1 & E2 & _).
    set (rest := (BrotliEncoderCompressStream _ _ _ _ _).1.2).
    set (st' := (BrotliEncoderCompressStream _ _ _ _ _).2).
    apply (session_state_intro _ _ _ _ _
             (pushed_handle rest (pending n h)) C st');
      unfold pushed_world; cbn [handles arrays encoders memory refs];
      rewrite ?held_refs_pushed; try done.
    + by rewrite Hhs, insert_insert_eq.
    + by rewrite Hen, E1, Hst, insert_insert_eq.
    + cbn [state pushed_handle set_input_offset]. by rewrite E1.
    + cbn [input_start pushed_handle set_input_offset]. by rewrite E2.
    + by apply registry_ok_pushed.
  - destruct (nativePull w ctx) as [[[w1 c1] v]|] eqn:Hp; [|done].
    injection Hex as <-.
    destruct (nativePull_inv _ _ _ _ _ Hp) as (h0 & st0 & Hh0 & Hs0 & ->).
    rewrite Hh in Hh0. injection Hh0 as <-.
    apply (session_state_intro _ _ _ _ _ h C (BrotliEncoderTakeOutput st0).2);
      cbn [handles arrays encoders memory refs set_encoders]; try done.
    by rewrite Hen, Hst, insert_insert_eq.
  - destruct (nativeAttachDictionary r w ctx d) as [[w1 ok]|] eqn:Ha; [|done].
    injection Hex as <-.
    destruct (decide (d = 0 \/ 15 <= dictionary_count h \/ r = 0)) as [Hno|Hyes].
    { rewrite (nativeAttachDictionary_refused r w ctx d h Hh Hno) in Ha.
      injection Ha as <- _. by apply (session_state_intro _ _ _ _ _ h C st). }
    assert (Hd : d <> 0) by tauto. assert (Hr : r <> 0) by tauto.
    assert (Hcount : dictionary_count h < 15) by lia.
    destruct (nativeAttachDictionary_handles r w ctx d h w1 ok Hh Hd Hcount Hr Ha)
      as (Hhs1 & Har1 & Hmem1 & Hrs1 & Hen1).
    assert (Hen2 : exists st2, encoders w1 = <[s := st2]> (encoders w0)).
    { destruct Hen1 as [->|[st' ->]]; [by exists st|].
      exists st'. by rewrite Hen, Hst, insert_insert_eq. }
    destruct Hen2 as [st2 Hen2].
    apply (session_state_intro _ _ _ _ _ (retained r h) C st2);
      rewrite ?held_refs_retained by done; try done.
    + by rewrite Hhs1, Hhs, insert_insert_eq.
    + by rewrite Har1.
    + by rewrite Hmem1.
    + by apply registry_ok_retained.
    + intros k [Hk| ->%list_elem_of_singleton]%elem_of_app; [by apply Hold|].
      apply Hfresh. cbn. rewrite decide_False by done. apply list_elem_of_here.
    + intros k Hk. rewrite Hrs1.
      rewrite lookup_insert_ne.
      * apply Hnew. intros Hin'. apply Hk. apply elem_of_app. by left.
      * intros ->. apply Hk. apply elem_of_app. right. apply list_elem_of_here.
Qed.

Lemma session_run a p s w0 (calls : list Call) :
  forall w w',
    session_state a p s w0 w -> Forall (in_session a) calls ->
    (forall r, r ∈ new_refs calls -> refs w0 !! r = None) ->
    run w calls = Some w' -> session_state a p s w0 w'.
Proof.
  induction calls as [|c calls IH]; intros w w' Hs Hall Hfresh Hrun.
  - cbn [run] in Hrun. by injection Hrun as <-.
  - apply Forall_cons in Hall as [Hc Hall]. cbn [run] in Hrun.
    destruct (exec w c) as [w1|] eqn:Hex; [|done].
    apply (IH w1 w'); try done.
    + apply (session_step a p s w0 w c w1); try done.
      intros r Hr. apply Hfresh. unfold new_refs in *. cbn [flat_map] in *.
      rewrite app_nil_r in Hr. apply elem_of_app. by left.
    + intros r Hr. apply Hfresh. unfold new_refs. cbn [flat_map].
      apply elem_of_app. by right.
Qed.

(** X1.  A whole session leaves no trace: after a successful create, any
    pushes, pulls and attaches on the new handle (each attach given a
    reference that was not in use) and a final destroy, the process state
    is exactly what it was before the create.  Every allocation and every
    global reference is released, also those of attaches that failed. *)
Theorem session_leaves_no_trace al w ctx (calls : list Call) w1 cx :
  fresh w al ->
  new_EncoderHandle al <> 0 -> to_size_t (ctx1 ctx) <> 0 ->
  new_input al <> 0 -> BrotliEncoderCreateInstance al <> 0 ->
  Forall (in_session (new_EncoderHandle al)) calls ->
  (forall r, r ∈ new_refs calls -> refs w !! r = None) ->
  run (nativeCreate al w ctx).1.1 calls = Some w1 ->
  ctx0 cx = new_EncoderHandle al ->
  nativeDestroy w1 cx = Some w.
Proof.
  intros (Fh & Fp & Fs) Ha Hn Hp Hs Hall Hfresh Hrun Hcx.
  specialize (Fh Ha). specialize (Fp Hp). specialize (Fs Hs).
  rewrite nativeCreate_success in Hrun by done. cbn [fst] in Hrun.
  destruct (session_run _ _ _ w calls _ w1 (session_state_created al w ctx)
              Hall Hfresh Hrun)
    as (h & C & st & Hhs & Har & Hen & Hmem & Hst & Hin & Hreg & Hold & Hnew).
  assert (Hh : handles w1 !! ctx0 cx = Some h)
    by (rewrite Hcx, Hhs; apply lookup_insert_eq).
  destruct (nativeDestroy_live w1 cx h Hh) as [w2 Hdes]; [apply Hreg|].
  rewrite Hdes. f_equal.
  pose proof (nativeDestroy_memory _ _ _ Hdes) as Hm2.
  destruct (nativeDestroy_inv _ _ _ Hdes) as (h2 & Hh2 & _ & H1 & H2 & H3 & H4).
  rewrite Hh in Hh2. injection Hh2 as <-.
  apply world_ext.
  - rewrite H1, Hcx, Hhs. by apply delete_insert_id.
  - rewrite H2, Hin, Har. by apply delete_insert_id.
  - rewrite H3, Hst, Hen. by apply delete_insert_id.
  - rewrite H4. apply map_eq. intros k. fold (held_refs h).
    rewrite lookup_after_deletes. case_decide.
    + symmetry. by apply Hold.
    + by apply Hnew.
  - by rewrite Hm2.
Qed.

End Coverage.

(** *** The further properties at the sample worlds *)

Lemma sample_pushed_reachable_any : Reachable any_call (sample_pushed 16 8).1.
Proof.
  apply (Reachable_weaken within_capacity); [done|].
  exact sample_pushed_reachable.
Qed.

Lemma second_allocation_fresh : fresh (sample_created 16) second_allocation.
Proof. repeat split; intros _; vm_compute; reflexivity. Qed.

Lemma two_handles_reachable : Reachable any_call two_handles.
Proof.
  apply (Reachable_call any_call (sample_created 16)
           (Create second_allocation (sample_ctx 0 32))).
  - by apply sample_created_reachable.
  - exact second_allocation_fresh.
  - done.
  - reflexivity.
Qed.

Lemma sample_session_refs_fresh r :
  r ∈ new_refs sample_session -> refs sample_world !! r = None.
Proof.
  intros Hr. assert (Hcases : r = 101 \/ r = 102).
  { vm_compute in Hr. apply elem_of_cons in Hr as [->|Hr]; [by left|].
    apply elem_of_cons in Hr as [->|Hr]; [by right|].
    by apply elem_of_nil in Hr. }
  destruct Hcases as [-> | ->]; reflexivity.
Qed.

Lemma session_leaves_no_trace_witness :
  fresh sample_world sample_allocation /\
  Forall (in_session (new_EncoderHandle sample_allocation)) sample_session /\
  run (nativeCreate sample_allocation sample_world (sample_ctx 0 16)).1.1
    sample_session = Some sample_after_session /\
  nativeDestroy sample_after_session (sample_ctx 1000 0) = Some sample_world.
Proof.
  assert (Hall : Forall (in_session (new_EncoderHandle sample_allocation))
                   sample_session)
    by (unfold sample_session; repeat (constructor; [reflexivity|]); constructor).
  assert (Hrun : run (nativeCreate sample_allocation sample_world
                        (sample_ctx 0 16)).1.1 sample_session =
                 Some sample_after_session) by (vm_compute; reflexivity).
  split; [exact sample_fresh|]. split; [exact Hall|]. split; [exact Hrun|].
  apply (session_leaves_no_trace sample_allocation sample_world
           (sample_ctx 0 16) sample_session sample_after_session
           (sample_ctx 1000 0) sample_fresh).
  - cbn. lia.
  - vm_compute. discriminate.
  - cbn. lia.
  - cbn. lia.
  - exact Hall.
  - exact sample_session_refs_fresh.
  - exact Hrun.
  - reflexivity.
Defined.

Lemma other_handles_untouched_witness :
  Reachable any_call two_handles /\
  well_formed two_handles (Push (sample_ctx 1100 0) 8) /\
  exec two_handles (Push (sample_ctx 1100 0) 8) = Some two_handles_pushed /\
  handles two_handles !! 1000 = Some (sample_handle 0 0) /\
  cookie_of (Push (sample_ctx 1100 0) 8) <> Some 1000 /\
  handles two_handles_pushed !! 1000 = Some (sample_handle 0 0).
Proof.
  assert (Hwf : well_formed two_handles (Push (sample_ctx 1100 0) 8))
    by (cbn [well_formed]; unfold is_jint; lia).
  assert (Hex : exec two_handles (Push (sample_ctx 1100 0) 8) =
                Some two_handles_pushed) by (vm_compute; reflexivity).
  assert (Hh : handles two_handles !! 1000 = Some (sample_handle 0 0))
    by (vm_compute; reflexivity).
  assert (Hne : cookie_of (Push (sample_ctx 1100 0) 8) <> Some 1000)
    by (cbn; intros [=]).
  split; [exact two_handles_reachable|]. do 4 (split; [assumption|]).
  apply (other_handles_untouched _ _ _ _ _ two_handles_reachable Hwf Hex Hh Hne).
Defined.

Lemma window_never_inverts_witness :
  consumes_prefix sample_engine /\
  Reachable any_call (sample_pushed 16 8).1 /\
  handles (sample_pushed 16 8).1 !! 1000 = Some (sample_handle 4 8) /\
  0 <= input_offset (sample_handle 4 8) <= input_last (sample_handle 4 8).
Proof.
  assert (Hh : handles (sample_pushed 16 8).1 !! 1000 = Some (sample_handle 4 8))
    by (vm_compute; reflexivity).
  split; [exact sample_consumes_prefix|].
  split; [exact sample_pushed_reachable_any|]. split; [exact Hh|].
  apply (window_never_inverts _ _ _ sample_consumes_prefix
           sample_pushed_reachable_any Hh).
Defined.

Lemma live_handles_own_engine_and_buffer_witness :
  Reachable any_call two_handles /\
  handles two_handles !! 1000 = Some (sample_handle 0 0) /\
  handles two_handles !! 1100 =
    Some (created_handle second_allocation) /\
  is_Some (encoders two_handles !! state (sample_handle 0 0)).
Proof.
  assert (Hh : handles two_handles !! 1000 = Some (sample_handle 0 0))
    by (vm_compute; reflexivity).
  assert (Hh' : handles two_handles !! 1100 =
                Some (created_handle second_allocation))
    by (vm_compute; reflexivity).
  split; [exact two_handles_reachable|]. do 2 (split; [assumption|]).
  apply (live_handles_own_engine_and_buffer _ _ _ _ _
           two_handles_reachable Hh Hh').
Defined.

Lemma pull_repeats_remaining_input_witness :
  nativePush (sample_created 16) (sample_ctx 1000 0) 8 =
    Some ((sample_pushed 16 8).1, (sample_pushed 16 8).2) /\
  ctx1 (sample_pushed 16 8).2 = 1 /\
  exists r, nativePull (sample_pushed 16 8).1 (sample_pushed 16 8).2 = Some r /\
            ctx3 r.1.2 = ctx3 (sample_pushed 16 8).2.
Proof.
  assert (Hp : nativePush (sample_created 16) (sample_ctx 1000 0) 8 =
               Some ((sample_pushed 16 8).1, (sample_pushed 16 8).2))
    by (vm_compute; reflexivity).
  assert (Hok : ctx1 (sample_pushed 16 8).2 = 1) by (vm_compute; reflexivity).
  do 2 (split; [assumption|]).
  destruct (pull_repeats_remaining_input _ _ _ _ _ Hp Hok)
    as (w2 & c2 & v2 & _ & _ & _ & Hpull & _ & _ & _ & H3 & _).
  exists (w2, c2, v2). by split.
Defined.

Lemma idle_push_offers_nothing_witness :
  consumes_prefix sample_engine /\
  Reachable any_call (sample_created 16) /\
  operation_of_int (to_int (ctx1 (sample_ctx 1000 2))) =
    Some BROTLI_OPERATION_FINISH /\
  handles (sample_created 16) !! ctx0 (sample_ctx 1000 2) =
    Some (sample_handle 0 0) /\
  encoders (sample_created 16) !! state (sample_handle 0 0) =
    Some {| held := 0; ending := false; attached := [] |} /\
  input_offset (sample_handle 0 0) = input_last (sample_handle 0 0) /\
  exists w' c',
    nativePush (sample_created 16) (sample_ctx 1000 2) 0 = Some (w', c') /\
    handles w' = handles (sample_created 16).
Proof.
  assert (Hr : Reachable any_call (sample_created 16))
    by (by apply sample_created_reachable).
  assert (Ho : operation_of_int (to_int (ctx1 (sample_ctx 1000 2))) =
               Some BROTLI_OPERATION_FINISH) by (vm_compute; reflexivity).
  assert (Hh : handles (sample_created 16) !! ctx0 (sample_ctx 1000 2) =
               Some (sample_handle 0 0)) by (vm_compute; reflexivity).
  assert (Hs : encoders (sample_created 16) !! state (sample_handle 0 0) =
               Some {| held := 0; ending := false; attached := [] |})
    by (vm_compute; reflexivity).
  assert (Heq : input_offset (sample_handle 0 0) = input_last (sample_handle 0 0))
    by reflexivity.
  split; [exact sample_consumes_prefix|]. do 5 (split; [assumption|]).
  destruct (idle_push_offers_nothing _ _ _ _ _ sample_consumes_prefix
              Hr Ho Hh Hs Heq) as (w' & c' & Hp & Hhs & _).
  exists w', c'. by split.
Defined.

Lemma failed_compress_is_not_rolled_back_witness :
  operation_of_int (to_int (ctx1 (stale_ctx 1))) =
    Some BROTLI_OPERATION_FLUSH /\
  handles failing_world !! ctx0 (stale_ctx 1) = Some (sample_handle 0 0) /\
  encoders failing_world !! state (sample_handle 0 0) =
    Some {| held := 0; ending := false; attached := [] |} /\
  exists w',
    nativePush failing_world (stale_ctx 1) 8 =
      Some (w', {| ctx0 := 1000; ctx1 := 0; ctx2 := 9; ctx3 := 9; ctx4 := 9 |}) /\
    handles w' !! 1000 =
      Some {| state := 3000; dictionary_refs := replicate 15 0;
              dictionary_count := 0; input_start := 2000;
              input_offset := 4; input_last := 8 |}.
Proof.
  assert (Ho : operation_of_int (to_int (ctx1 (stale_ctx 1))) =
               Some BROTLI_OPERATION_FLUSH) by (vm_compute; reflexivity).
  assert (Hh : handles failing_world !! ctx0 (stale_ctx 1) =
               Some (sample_handle 0 0)) by (vm_compute; reflexivity).
  assert (Hs : encoders failing_world !! state (sample_handle 0 0) =
               Some {| held := 0; ending := false; attached := [] |})
    by (vm_compute; reflexivity).
  assert (Hd : 8 <> 0 -> ~ input_offset (sample_handle 0 0)
                           < input_last (sample_handle 0 0))
    by (cbn; lia).
  do 3 (split; [assumption|]).
  destruct (failed_compress_is_not_rolled_back failing_world
              (stale_ctx 1) 8 _ _ _ Ho Hh Hd Hs eq_refl)
    as (w' & Hp & Hh' & _).
  exists w'. split; [rewrite Hp; vm_compute; reflexivity|].
  change 1000 with (ctx0 (stale_ctx 1)). rewrite Hh'. vm_compute. reflexivity.
Defined.

Lemma create_applies_only_nonnegative_parameters_witness :
  encoders (nativeCreate sample_allocation sample_world (sample_ctx 0 16)).1.1
    !! BrotliEncoderCreateInstance sample_allocation =
  Some {| held := 0; ending := false; attached := [] |}.
Proof.
  destruct (create_applies_only_nonnegative_parameters (E := sample_engine)
              sample_allocation sample_world (sample_ctx 0 16))
    as (_ & _ & Hset).
  - cbn. lia.
  - vm_compute. discriminate.
  - cbn. lia.
  - cbn. lia.
  - etransitivity; [apply Hset; vm_compute; discriminate|reflexivity].
Defined.

Lemma destroyed_handle_is_dead_witness :
  nativeDestroy (sample_created 16) (sample_ctx 1000 0) = Some sample_world /\
  nativeDestroy sample_world (sample_ctx 1000 0) = None /\
  nativePull sample_world (sample_ctx 1000 0) = None.
Proof.
  assert (Hd : nativeDestroy (sample_created 16) (sample_ctx 1000 0) =
               Some sample_world) by (vm_compute; reflexivity).
  split; [exact Hd|].
  destruct (destroyed_handle_is_dead _ _ _ Hd) as (_ & H2 & H3 & _).
  by split.
Defined.

Lemma registry_lists_references_in_attachment_order_witness :
  Reachable any_call (sample_created 16) /\
  handles (sample_created 16) !! ctx0 (sample_ctx 1000 0) =
    Some (sample_handle 0 0) /\
  dictionary_count (sample_handle 0 0) = 0 /\
  attach_each (sample_created 16) (sample_ctx 1000 0) sample_attaches =
    Some (sample_attached.1, sample_attached.2) /\
  exists h', handles sample_attached.1 !! ctx0 (sample_ctx 1000 0) = Some h' /\
    held_refs h' = [101; 103] /\ dictionary_count h' = 2.
Proof.
  assert (Hr : Reachable any_call (sample_created 16))
    by (by apply sample_created_reachable).
  assert (Hh : handles (sample_created 16) !! ctx0 (sample_ctx 1000 0) =
               Some (sample_handle 0 0)) by (vm_compute; reflexivity).
  assert (H0 : dictionary_count (sample_handle 0 0) = 0) by reflexivity.
  assert (Hrun : attach_each (sample_created 16) (sample_ctx 1000 0)
                   sample_attaches =
                 Some (sample_attached.1, sample_attached.2))
    by (vm_compute; reflexivity).
  do 4 (split; [assumption|]).
  destruct (registry_lists_references_in_attachment_order _ _ _ _ _ _
              Hr Hh H0 Hrun) as (h' & Hh' & Hheld & Hcount).
  exists h'. split; [exact Hh'|]. split; [exact Hheld|exact Hcount].
Defined.

Lemma attach_passes_prepared_pointer_witness :
  nativePrepareDictionary sample_world 7 0 = NewDirectByteBuffer 575 4 /\
  refs prepared_world !! 9 = Some (DirectBuffer 575 4) /\
  handles prepared_world !! ctx0 (sample_ctx 1000 0) = Some (sample_handle 0 0) /\
  encoders prepared_world !! state (sample_handle 0 0) =
    Some {| held := 0; ending := false; attached := [] |} /\
  exists w2,
    nativeAttachDictionary 101 prepared_world (sample_ctx 1000 0) 9 =
      Some (w2, true) /\
    encoders w2 !! state (sample_handle 0 0) =
      Some {| held := 0; ending := false; attached := [575] |}.
Proof.
  assert (Hprep : nativePrepareDictionary sample_world 7 0 =
                  NewDirectByteBuffer 575 4) by (vm_compute; reflexivity).
  assert (Hbuf : refs prepared_world !! 9 = Some (DirectBuffer 575 4))
    by (vm_compute; reflexivity).
  assert (Hh : handles prepared_world !! ctx0 (sample_ctx 1000 0) =
               Some (sample_handle 0 0)) by (vm_compute; reflexivity).
  assert (Hs : encoders prepared_world !! state (sample_handle 0 0) =
               Some {| held := 0; ending := false; attached := [] |})
    by (vm_compute; reflexivity).
  do 4 (split; [assumption|]).
  assert (H9 : 9 <> 0) by lia.
  assert (Hc : dictionary_count (sample_handle 0 0) < 15) by (cbn; lia).
  assert (H101 : 101 <> 0) by lia.
  destruct (attach_passes_prepared_pointer sample_world 7 0 575 4
              prepared_world 101 (sample_ctx 1000 0) 9 (sample_handle 0 0)
              {| held := 0; ending := false; attached := [] |}
              Hprep Hbuf H9 Hh Hc H101 Hs)
    as (_ & _ & _ & w2 & Hrun & Hen).
  exists w2. split; [exact Hrun|exact Hen].
Defined.

Lemma destroy_dictionary_releases_prepared_witness :
  nativePrepareDictionary sample_world 7 0 = NewDirectByteBuffer 575 4 /\
  (575 ∉ (∅ : gset Z)) /\
  refs prepared_world !! 9 = Some (DirectBuffer 575 4) /\
  nativeDestroyDictionary prepared_world
    (prepared (NewDirectByteBuffer 575 4) ∅) 9 = Some ∅ /\
  nativeDestroyDictionary prepared_world ∅ 9 = None.
Proof.
  assert (Hprep : nativePrepareDictionary sample_world 7 0 =
                  NewDirectByteBuffer 575 4) by (vm_compute; reflexivity).
  assert (Hfresh : 575 ∉ (∅ : gset Z)) by apply not_elem_of_empty.
  assert (Hbuf : refs prepared_world !! 9 = Some (DirectBuffer 575 4))
    by (vm_compute; reflexivity).
  do 3 (split; [assumption|]).
  destruct (destroy_dictionary_releases_prepared sample_world 7 0 575 4
              prepared_world ∅ 9 Hprep Hfresh Hbuf) as (H1 & H2 & _).
  - lia.
  - by split.
Defined.
